(** * Request orchestration of the Font Analyzer client

    A shallow embedding of [handleSubmit] from
    [typography/src/App.tsx] together with the data it works on
    ([types.ts]), and the properties of its guards, retry loop,
    fallback and clean-up.

    [handleSubmit] is an [async] function.  It is embedded as a function
    of a small monad [M] that threads the component's state (React state
    and refs), may complete abruptly with a thrown value, and records the
    effects it performs (network calls, timers, console output) in the
    order they happen.  Every [await] is a suspension point: while the
    function is suspended the page keeps delivering events (typing,
    further submissions), and these are part of the environment [Env]
    the function is run against, together with the way each [fetch]
    settles.

    Around it: what the two presentation components render from the
    state ([ResultDisplay.tsx], [FontAnalyzerForm.tsx]); the font loader
    [loadGoogleFont] and the effect that calls it when [result] changes
    ([App.tsx], lines 17-36 and 144-151), over the children of
    [document.head]; and the handler of [POST /api/suggest-font] on the
    server, with the model's answer and [JSON.parse] as parameters.
    Part III states what holds of these and of the component across
    calls.  Outside the embedding: markup and styling, and the start-up
    of the server. *)

From Stdlib Require Import String Ascii List NArith Arith Bool Lia DecimalString.
Import ListNotations.
Open Scope string_scope.

(* ================================================================== *)
(** * Part I.  Definitions                                             *)
(* ================================================================== *)

(** ** Strings, as JavaScript treats them *)

(** [String.prototype.trim] strips white space and line terminators.
    Characters are code units below 256 here: TAB, LF, VT, FF, CR, SP
    and NBSP are the ones [trim] removes. *)
Definition is_whitespace (c : ascii) : bool :=
  let n := nat_of_ascii c in
  ((n =? 9) || (n =? 10) || (n =? 11) || (n =? 12) || (n =? 13)
   || (n =? 32) || (n =? 160))%nat.

Fixpoint trimStart (s : string) : string :=
  match s with
  | EmptyString => EmptyString
  | String c rest => if is_whitespace c then trimStart rest else s
  end.

Fixpoint trimEnd (s : string) : string :=
  match s with
  | EmptyString => EmptyString
  | String c rest =>
      match trimEnd rest with
      | EmptyString => if is_whitespace c then EmptyString else String c EmptyString
      | kept => String c kept
      end
  end.

Definition trim (s : string) : string := trimEnd (trimStart s).

(** A title made of white space only (the empty title included). *)
Fixpoint blank (s : string) : bool :=
  match s with
  | EmptyString => true
  | String c rest => is_whitespace c && blank rest
  end.

(** [hay.includes(needle)] *)
Fixpoint includes (hay needle : string) : bool :=
  String.prefix needle hay
  || match hay with
     | EmptyString => false
     | String _ rest => includes rest needle
     end.

(** A string in a boolean position: only the empty string is falsy. *)
Definition truthy (s : string) : bool := negb (s =? "").

(** A number inside a template literal. *)
Definition decimal (n : N) : string := NilZero.string_of_uint (N.to_uint n).

(** ** Data model *)

(** [types.ts]: the payload of the suggestion API. *)
Record FontSuggestion := mkFontSuggestion {
  font_name : string;
  reason : string
}.

(** A JavaScript object is known by its identity as well as by its
    fields: React compares the old and the new state by identity. *)
Record SuggestionObj := mkObj {
  obj_id : nat;
  fields : FontSuggestion
}.

(** A thrown value: an [Error] instance with its message, or anything else. *)
Inductive Thrown :=
| ErrorObject (message : string)
| NotAnError.

(** The parsed body of a response, at the types the code reads it at:
    [FontSuggestion] after a successful response (line 107) and
    [{ details?: string }] after a failed one (line 100).  A body that
    parses to a value of another shape is not covered. *)
Record Body := mkBody {
  body_font_name : string;
  body_reason : string;
  details : option string
}.

(** The suggestion carried by a parsed body. *)
Definition suggestion_of (b : Body) : FontSuggestion :=
  mkFontSuggestion (body_font_name b) (body_reason b).

(** [response.json()] resolves with the parsed body or rejects. *)
Inductive JsonResult :=
| JsonResolves (b : Body)
| JsonRejects (err : Thrown).

Record Response := mkResponse {
  status : N;
  json_result : JsonResult
}.

(** [response.ok]: the status is in the range 200-299. *)
Definition ok (r : Response) : bool :=
  (200 <=? status r)%N && (status r <=? 299)%N.

(** [fetch] resolves with a response or rejects (connection-level failure). *)
Inductive FetchOutcome :=
| Resolved (r : Response)
| Rejected (err : Thrown).

(** ** Constants *)

Definition API_URL : string := "http://localhost:3000/api/suggest-font".

(** The module-level fallback object; it is allocated once, so it has
    one identity for the whole session. *)
Definition MOCK_FONT_SUGGESTION : SuggestionObj :=
  mkObj 0
    (mkFontSuggestion "Press Start 2P"
       "Network connection failed. Showing mock response for debugging. The title suggests a clear, nostalgic 8-bit style.").

Definition maxRetries : nat := 3.

(** ** Component state *)

(** React state ([prompt], [result], [loading], [error]), the refs, and
    the allocator that gives every freshly parsed object its identity. *)
Record World := mkWorld {
  prompt : string;
  result : option SuggestionObj;
  loading : bool;
  error : option string;
  inFlightRef : bool;
  lastPromptRef : option string;
  heap_next : nat
}.

(** The state of a freshly mounted component.  Identity 0 is taken by
    [MOCK_FONT_SUGGESTION]. *)
Definition initial : World := mkWorld "" None false None false None 1.

(** ** Effects *)

Inductive Effect :=
| PreventDefault
| Fetch (url : string) (promptField : string)
| SetTimeout (ms : N)
| ConsoleWarn (msg : string)
| ConsoleError (label : string) (err : Thrown).

(** ** The monad *)

(** How a computation completes.  [Overlap] is not a JavaScript
    completion: it marks a run in which a second request passed the
    guards while another one was suspended, which this embedding does
    not follow further.  It is shown below that it never happens
    ([handleSubmit_completes]). *)
Inductive Completion (A : Type) :=
| Normal (a : A)
| Throw (exn : Thrown)
| Overlap.
Arguments Normal {A} a.
Arguments Throw {A} exn.
Arguments Overlap {A}.

(** A finished run: how it completed, the state it left, and the
    effects it performed, oldest first. *)
Record Run (A : Type) := mkRun {
  outcome : Completion A;
  final : World;
  effects : list Effect
}.
Arguments mkRun {A} outcome final effects.
Arguments outcome {A} r.
Arguments final {A} r.
Arguments effects {A} r.

Definition M (A : Type) : Type := World -> Run A.

Definition ret {A} (a : A) : M A := fun w => mkRun (Normal a) w [].

Definition bind {A B} (m : M A) (k : A -> M B) : M B := fun w =>
  match m w with
  | mkRun (Normal a) w1 fx =>
      match k a w1 with
      | mkRun o w2 fx' => mkRun o w2 (fx ++ fx')
      end
  | mkRun (Throw x) w1 fx => mkRun (Throw x) w1 fx
  | mkRun Overlap w1 fx => mkRun Overlap w1 fx
  end.

Definition throw {A} (x : Thrown) : M A := fun w => mkRun (Throw x) w [].

Definition overlap {A} : M A := fun w => mkRun Overlap w [].

(** [try { m } catch (x) { handler x }] *)
Definition try_catch {A} (m : M A) (handler : Thrown -> M A) : M A := fun w =>
  match m w with
  | mkRun (Throw x) w1 fx =>
      match handler x w1 with
      | mkRun o w2 fx' => mkRun o w2 (fx ++ fx')
      end
  | r => r
  end.

(** [try { m } finally { cleanup }]: the clean-up runs whether [m]
    returned or threw, and [m]'s completion stands when the clean-up
    completes normally. *)
Definition try_finally {A} (m : M A) (cleanup : M unit) : M A := fun w =>
  match m w with
  | mkRun Overlap w1 fx => mkRun Overlap w1 fx
  | mkRun o w1 fx =>
      match cleanup w1 with
      | mkRun (Normal _) w2 fx' => mkRun o w2 (fx ++ fx')
      | mkRun (Throw x) w2 fx' => mkRun (Throw x) w2 (fx ++ fx')
      | mkRun Overlap w2 fx' => mkRun Overlap w2 (fx ++ fx')
      end
  end.

Definition gets {A} (f : World -> A) : M A := fun w => mkRun (Normal (f w)) w [].

Definition modify (f : World -> World) : M unit := fun w => mkRun (Normal tt) (f w) [].

Definition emit (e : Effect) : M unit := fun w => mkRun (Normal tt) w [e].

Declare Scope js_scope.
Delimit Scope js_scope with js.
Notation "x <- m ;; k" := (bind m (fun x => k))
  (at level 61, m at next level, right associativity) : js_scope.
Notation "m ;; k" := (bind m (fun _ => k))
  (at level 61, right associativity) : js_scope.
Open Scope js_scope.

(** ** State setters *)

Definition setPrompt (v : string) : M unit :=
  modify (fun w => mkWorld v (result w) (loading w) (error w)
                     (inFlightRef w) (lastPromptRef w) (heap_next w)).

(** [setResult(updater)]: the functional form, applied to the state
    current at that moment. *)
Definition setResult (updater : option SuggestionObj -> option SuggestionObj) : M unit :=
  modify (fun w => mkWorld (prompt w) (updater (result w)) (loading w) (error w)
                     (inFlightRef w) (lastPromptRef w) (heap_next w)).

Definition setLoading (v : bool) : M unit :=
  modify (fun w => mkWorld (prompt w) (result w) v (error w)
                     (inFlightRef w) (lastPromptRef w) (heap_next w)).

Definition setError (v : option string) : M unit :=
  modify (fun w => mkWorld (prompt w) (result w) (loading w) v
                     (inFlightRef w) (lastPromptRef w) (heap_next w)).

Definition setInFlightRef (v : bool) : M unit :=
  modify (fun w => mkWorld (prompt w) (result w) (loading w) (error w)
                     v (lastPromptRef w) (heap_next w)).

Definition setLastPromptRef (v : option string) : M unit :=
  modify (fun w => mkWorld (prompt w) (result w) (loading w) (error w)
                     (inFlightRef w) v (heap_next w)).

(** A freshly created object takes the next free identity. *)
Definition alloc (v : FontSuggestion) : M SuggestionObj := fun w =>
  mkRun (Normal (mkObj (heap_next w) v))
        (mkWorld (prompt w) (result w) (loading w) (error w)
                 (inFlightRef w) (lastPromptRef w) (S (heap_next w)))
        [].

(** ** The environment of one call *)

(** What the page delivers while [handleSubmit] is suspended: the user
    edits the input ([setPrompt]) or the form is submitted again. *)
Inductive UIEvent :=
| Typed (value : string)
| Submitted (e : bool) (initialPrompt : option string).

(** The suspension points of [handleSubmit]: the [fetch] of attempt [i],
    the back-off timer after attempt [i], the reading of the body, and
    the timer before the fallback is shown. *)
Inductive AwaitSite :=
| AtFetch (i : nat)
| AtBackoff (i : nat)
| AtJson
| AtMockDelay.

Record Env := mkEnv {
  fetch_result : nat -> FetchOutcome;      (* how the fetch of attempt [i] settles *)
  during : AwaitSite -> list UIEvent       (* what arrives during each suspension *)
}.

(** ** [handleSubmit], lines 53-68: the short-circuit checks *)

(** [if (e) e.preventDefault()] *)
Definition preventDefault (e : bool) : M unit :=
  if e then emit PreventDefault else ret tt.

(** [initialPrompt ?? prompt]: the title this call is about. *)
Definition title_of (initialPrompt : option string) (prompt : string) : string :=
  match initialPrompt with
  | Some v => v
  | None => prompt
  end.

(** [(initialPrompt ?? prompt).trim()] *)
Definition currentPrompt_of (initialPrompt : option string) (prompt : string) : string :=
  trim (title_of initialPrompt prompt).

(** Lines 55-68.  [None]: the function has returned;
    [Some currentPrompt]: it goes on. *)
Definition guards (initialPrompt : option string) : M (option string) :=
  p <- gets prompt ;;
  let currentPrompt := currentPrompt_of initialPrompt p in
  if negb (truthy currentPrompt) then
    setError (Some "Please enter a title to analyze.") ;;
    ret None
  else
    busy <- gets inFlightRef ;;
    if busy then ret None
    else
      last <- gets lastPromptRef ;;
      if match last with
         | Some l => truthy l && (l =? currentPrompt)
         | None => false
         end
      then ret None
      else ret (Some currentPrompt).

(** ** Suspension *)

(** An event handled while a request is suspended.  A submission runs
    the same checks; should it pass them, two requests would be running
    at once, which is where this embedding stops ([Overlap]). *)
Definition dispatch (ev : UIEvent) : M unit :=
  match ev with
  | Typed v => setPrompt v
  | Submitted e initialPrompt =>
      preventDefault e ;;
      g <- guards initialPrompt ;;
      match g with
      | None => ret tt
      | Some _ => overlap
      end
  end.

Fixpoint meanwhile (evs : list UIEvent) : M unit :=
  match evs with
  | [] => ret tt
  | ev :: rest => dispatch ev ;; meanwhile rest
  end.

Definition suspend (env : Env) (site : AwaitSite) : M unit :=
  meanwhile (during env site).

(** [await fetch(API_URL, { method: "POST", ..., body: JSON.stringify({ prompt }) })] *)
Definition fetch (env : Env) (currentPrompt : string) (i : nat) : M Response :=
  emit (Fetch API_URL currentPrompt) ;;
  suspend env (AtFetch i) ;;
  match fetch_result env i with
  | Resolved r => ret r
  | Rejected x => throw x
  end.

(** [await new Promise((r) => setTimeout(r, ms))] *)
Definition sleep (env : Env) (site : AwaitSite) (ms : N) : M unit :=
  emit (SetTimeout ms) ;;
  suspend env site.

(** [await response.json()] *)
Definition json (env : Env) (r : Response) : M Body :=
  suspend env AtJson ;;
  match json_result r with
  | JsonResolves b => ret b
  | JsonRejects x => throw x
  end.

(** [Math.pow(2, i) * 500] *)
Definition backoff (i : nat) : N := (2 ^ N.of_nat i * 500)%N.

(** ** [handleSubmit], lines 80-97: the retry loop *)

Inductive Flow := Break | Continue.

(** [response.status === 404 || response.status >= 500] *)
Definition retryable (r : Response) : bool :=
  (status r =? 404)%N || (500 <=? status r)%N.

(** [for (let i = 0; i < maxRetries; i++) { ... }] with the local
    [response]; [fuel] is [maxRetries - i], so the loop test
    [i < maxRetries] is [fuel <> 0]. *)
Fixpoint retry_loop (env : Env) (currentPrompt : string)
    (fuel i : nat) (response : option Response) : M (option Response) :=
  match fuel with
  | O => ret response
  | S fuel' =>
      step <- try_catch
        (r <- fetch env currentPrompt i ;;
         if ok r then ret (Break, Some r)
         else if retryable r then
           sleep env (AtBackoff i) (backoff i) ;;
           ret (Continue, Some r)
         else ret (Break, Some r))
        (fun fetchErr =>
           if (i =? maxRetries - 1)%nat then throw fetchErr
           else
             sleep env (AtBackoff i) (backoff i) ;;
             ret (Continue, response)) ;;
      match step with
      | (Break, response') => ret response'
      | (Continue, response') =>
          retry_loop env currentPrompt fuel' (S i) response'
      end
  end.

(** ** [handleSubmit], lines 99-105: no successful response *)

(** [`HTTP error! status: ${response ? response.status : "Network Error"}`] *)
Definition http_error_text (response : option Response) : string :=
  "HTTP error! status: "
  ++ match response with
     | Some r => decimal (status r)
     | None => "Network Error"
     end.

(** [errData.details || `HTTP error! ...`] *)
Definition failure_text (errData : option string) (response : option Response) : string :=
  match errData with
  | Some d => if truthy d then d else http_error_text response
  | None => http_error_text response
  end.

(** Lines 100-104: [errData] starts as [{}]; [response!.json()] is
    tried (on a null [response] the call itself throws) and a failure
    of it is ignored; then the error is thrown. *)
Definition fail_with_response (env : Env) (response : option Response) : M unit :=
  errData <- try_catch
    (match response with
     | Some r => b <- json env r ;; ret (details b)
     | None => throw (ErrorObject "Cannot read properties of null (reading 'json')")
     end)
    (fun _ => ret None) ;;
  throw (ErrorObject (failure_text errData response)).

(** ** [handleSubmit], lines 108-112 and 122-126: the state updaters *)

(** [prev.font_name === data.font_name && prev.reason === data.reason] *)
Definition same_fields (prev data : FontSuggestion) : bool :=
  (font_name prev =? font_name data) && (reason prev =? reason data).

(** [(prev) => { if (prev && prev.font_name === data.font_name
                      && prev.reason === data.reason) return prev;
                 return data; }] *)
Definition keep_if_same (data : SuggestionObj) (prev : option SuggestionObj)
  : option SuggestionObj :=
  match prev with
  | Some p => if same_fields (fields p) (fields data) then prev else Some data
  | None => Some data
  end.

(** ** [handleSubmit], lines 77-115: the body of the [try] *)

Definition try_body (env : Env) (currentPrompt : string) : M unit :=
  response <- retry_loop env currentPrompt maxRetries 0 None ;;
  match response with
  | Some r =>
      if ok r then
        b <- json env r ;;
        data <- alloc (suggestion_of b) ;;
        setResult (keep_if_same data) ;;
        setLastPromptRef (Some currentPrompt)
      else fail_with_response env response
  | None => fail_with_response env response
  end.

(** ** [handleSubmit], lines 116-134: the [catch] *)

(** [err instanceof Error ? err.message : "Unknown error"] *)
Definition errorMsg_of (err : Thrown) : string :=
  match err with
  | ErrorObject m => m
  | NotAnError => "Unknown error"
  end.

(** [errorMsg.includes("Failed to fetch") || errorMsg.includes("NetworkError")] *)
Definition looks_like_network_error (errorMsg : string) : bool :=
  includes errorMsg "Failed to fetch" || includes errorMsg "NetworkError".

(** [`[MOCK ACTIVE] API server not found at ${API_URL}. Displaying mock
    font: ${MOCK_FONT_SUGGESTION.font_name}.`] *)
Definition mock_notice : string :=
  "[MOCK ACTIVE] API server not found at " ++ API_URL
  ++ ". Displaying mock font: " ++ font_name (fields MOCK_FONT_SUGGESTION) ++ ".".

Definition catch_block (env : Env) (currentPrompt : string) (err : Thrown) : M unit :=
  let errorMsg := errorMsg_of err in
  if looks_like_network_error errorMsg then
    emit (ConsoleWarn "Network Error detected. Falling back to mock response.") ;;
    sleep env AtMockDelay 500 ;;
    setResult (keep_if_same MOCK_FONT_SUGGESTION) ;;
    setError (Some mock_notice) ;;
    setLastPromptRef (Some currentPrompt)
  else
    emit (ConsoleError "API Error:" err) ;;
    setError (Some ("Server Error: " ++ errorMsg ++ ".")).

(** ** [handleSubmit], lines 70-138: the request *)

Definition request (env : Env) (currentPrompt : string) : M unit :=
  setInFlightRef true ;;
  setLoading true ;;
  setError None ;;
  try_finally
    (try_catch (try_body env currentPrompt) (catch_block env currentPrompt))
    (setInFlightRef false ;; setLoading false).

(** ** [handleSubmit] *)

Definition handleSubmit (env : Env) (e : bool) (initialPrompt : option string) : M unit :=
  preventDefault e ;;
  g <- guards initialPrompt ;;
  match g with
  | None => ret tt
  | Some currentPrompt => request env currentPrompt
  end.

(** ** What a run depends on *)

(** The loop's completion and its network schedule are decided by the
    way the fetches settle alone.  [loop_exit] and [loop_schedule]
    follow the control flow of lines 80-97 without the state;
    [retry_loop_run] below shows that the loop agrees with them. *)
Fixpoint loop_exit (net : nat -> FetchOutcome) (fuel i : nat)
    (response : option Response) : Completion (option Response) :=
  match fuel with
  | O => Normal response
  | S fuel' =>
      match net i with
      | Resolved r =>
          if ok r then Normal (Some r)
          else if retryable r then loop_exit net fuel' (S i) (Some r)
          else Normal (Some r)
      | Rejected fetchErr =>
          if (i =? maxRetries - 1)%nat then Throw fetchErr
          else loop_exit net fuel' (S i) response
      end
  end.

Fixpoint loop_schedule (net : nat -> FetchOutcome) (currentPrompt : string)
    (fuel i : nat) : list Effect :=
  match fuel with
  | O => []
  | S fuel' =>
      Fetch API_URL currentPrompt ::
      match net i with
      | Resolved r =>
          if ok r then []
          else if retryable r then
            SetTimeout (backoff i) :: loop_schedule net currentPrompt fuel' (S i)
          else []
      | Rejected _ =>
          if (i =? maxRetries - 1)%nat then []
          else SetTimeout (backoff i) :: loop_schedule net currentPrompt fuel' (S i)
      end
  end.

(** How the whole loop of one call ends. *)
Definition retry_verdict (env : Env) : Completion (option Response) :=
  loop_exit (fetch_result env) maxRetries 0 None.

(** What [response.json()] yields for the [details] of a failed response;
    a rejected parse is swallowed (line 103) and leaves [errData = {}]. *)
Definition errData_of (r : Response) : option string :=
  match json_result r with
  | JsonResolves b => details b
  | JsonRejects _ => None
  end.

(** How the [try] block of one call (lines 77-115) completes: with the
    parsed suggestion, or with the value it throws ([try_body_returns]
    and [try_body_throws] below show that the block agrees). *)
Definition try_verdict (env : Env) : Completion Body :=
  match retry_verdict env with
  | Normal (Some r) =>
      if ok r then
        match json_result r with
        | JsonResolves b => Normal b
        | JsonRejects x => Throw x
        end
      else Throw (ErrorObject (failure_text (errData_of r) (Some r)))
  | Normal None => Throw (ErrorObject (failure_text None None))
  | Throw x => Throw x
  | Overlap => Overlap
  end.

(** An upstream failure: the service answered, but with an error
    status (the thrown message is the body's [details] or the
    constructed text), or with a payload that does not parse (the parser's
    error is thrown). *)
Inductive upstream_error (env : Env) : Thrown -> Prop :=
| http_error_response (r : Response) :
    retry_verdict env = Normal (Some r) ->
    ok r = false ->
    upstream_error env (ErrorObject (failure_text (errData_of r) (Some r)))
| unparsable_payload (r : Response) (x : Thrown) :
    retry_verdict env = Normal (Some r) ->
    ok r = true ->
    json_result r = JsonRejects x ->
    upstream_error env x.

(** ** Observations *)

(** The network calls and timers among the effects, in order. *)
Definition on_the_clock (fx : Effect) : bool :=
  match fx with
  | Fetch _ _ | SetTimeout _ => true
  | _ => false
  end.

Definition timeline (fxs : list Effect) : list Effect := filter on_the_clock fxs.

Definition is_fetch (fx : Effect) : bool :=
  match fx with
  | Fetch _ _ => true
  | _ => false
  end.

(** The number of network calls among the effects. *)
Definition network_calls (fxs : list Effect) : nat := length (filter is_fetch fxs).

(** What [if (e) e.preventDefault()] leaves in the effects. *)
Definition default_prevented (e : bool) : list Effect :=
  if e then [PreventDefault] else [].

(** What the presentation layer is given: [error], [loading], [result]. *)
Definition displayed (w : World) : option string * bool * option SuggestionObj :=
  (error w, loading w, result w).

(** ** States *)

(** The three short-circuit checks let the submission through. *)
Definition passes_guards (initialPrompt : option string) (w : World) : Prop :=
  currentPrompt_of initialPrompt (prompt w) <> ""
  /\ inFlightRef w = false
  /\ lastPromptRef w <> Some (currentPrompt_of initialPrompt (prompt w)).

(** The state with the validation message in [error]. *)
Definition rejected_blank (w : World) : World :=
  mkWorld (prompt w) (result w) (loading w)
    (Some "Please enter a title to analyze.")
    (inFlightRef w) (lastPromptRef w) (heap_next w).

(** The state once lines 70-72 have run: guard set, [loading] on,
    [error] cleared. *)
Definition begun (w : World) : World :=
  mkWorld (prompt w) (result w) true None true (lastPromptRef w) (heap_next w).

(** The state once the [finally] block (lines 136-137) has run. *)
Definition released (w : World) : World :=
  mkWorld (prompt w) (result w) false (error w) false (lastPromptRef w) (heap_next w).

(** The object [response.json()] creates for the body [b] in state [w]. *)
Definition parsed (w : World) (b : Body) : SuggestionObj :=
  mkObj (heap_next w) (suggestion_of b).

(** Two states that differ at most in [prompt] and [error]: what an
    event delivered during a suspension may change. *)
Definition drift (w w' : World) : Prop :=
  result w' = result w
  /\ loading w' = loading w
  /\ inFlightRef w' = inFlightRef w
  /\ lastPromptRef w' = lastPromptRef w
  /\ heap_next w' = heap_next w.

(** A computation that, run from [w], completes as [o], performs the
    network calls and timers [tl], and leaves the state as it was up to
    [drift]. *)
Definition calm {A} (m : M A) (w : World) (o : Completion A) (tl : list Effect) : Prop :=
  exists w' fx, m w = mkRun o w' fx /\ drift w w' /\ timeline fx = tl.

(** Dedup Memory never holds the empty title. *)
Definition dedup_ok (w : World) : Prop := lastPromptRef w <> Some "".

(** Every object in the state was allocated before: the stored
    result, if any, has an identity below the allocator's next one (and
    the fallback object keeps identity 0 to itself). *)
Definition heap_ok (w : World) : Prop :=
  0 < heap_next w
  /\ match result w with
     | Some o => obj_id o < heap_next w
     | None => True
     end.

(** The states the component can be in between two events: it starts
    in [initial], the user edits the input, and calls of [handleSubmit]
    run to completion (whatever they meet on the way). *)
Inductive reachable : World -> Prop :=
| reach_initial : reachable initial
| reach_typed (v : string) (w : World) :
    reachable w -> reachable (final (setPrompt v w))
| reach_submitted (env : Env) (e : bool) (initialPrompt : option string) (w : World) :
    reachable w -> reachable (final (handleSubmit env e initialPrompt w)).

(** ** Sample environments *)

Definition nothing_else (_ : AwaitSite) : list UIEvent := [].

(** The server cannot be reached: every fetch rejects the way Chrome
    reports it. *)
Definition offline : Env :=
  mkEnv (fun _ => Rejected (ErrorObject "Failed to fetch")) nothing_else.

(** The server answers every attempt with the same response. *)
Definition always (r : Response) : Env :=
  mkEnv (fun _ => Resolved r) nothing_else.

(** The server answers the attempts with the listed responses, then
    cannot be reached; meanwhile the page delivers [evs] during every
    suspension. *)
Definition answering (rs : list Response) (evs : list UIEvent) : Env :=
  mkEnv (fun i => match nth_error rs i with
                  | Some r => Resolved r
                  | None => Rejected (ErrorObject "Failed to fetch")
                  end)
        (fun _ => evs).

Definition error_response (code : N) (details : option string) : Response :=
  mkResponse code (JsonResolves (mkBody "" "" details)).

Definition suggestion_response (font why : string) : Response :=
  mkResponse 200 (JsonResolves (mkBody font why None)).

(** ** [ResultDisplay.tsx] and [FontAnalyzerForm.tsx]: what is rendered *)

(** The four things [ResultDisplay] returns: the error panel, the
    spinner, the suggestion with the preview of the title, or [null]. *)
Inductive View :=
| ErrorPanel (message : string)
| Spinner
| ResultCard (shown_font shown_reason fontFamily preview : string)
| NoView.

(** [if (error) ...; if (loading) ...; if (result) ...; return null],
    with [fontFamily: result.font_name || "sans-serif"] and the preview
    text [{prompt}]. *)
Definition ResultDisplay (error : option string) (loading : bool)
    (result : option SuggestionObj) (prompt : string) : View :=
  let below :=
    if loading then Spinner
    else
      match result with
      | Some r =>
          ResultCard (font_name (fields r)) (reason (fields r))
            (if truthy (font_name (fields r)) then font_name (fields r) else "sans-serif")
            prompt
      | None => NoView
      end in
  match error with
  | Some message => if truthy message then ErrorPanel message else below
  | None => below
  end.

(** [App.tsx], line 181. *)
Definition shown (w : World) : View :=
  ResultDisplay (error w) (loading w) (result w) (prompt w).

(** The form: the input's value, whether input and button are disabled,
    and the label of the button. *)
Record FormView := mkFormView {
  input_value : string;
  input_disabled : bool;
  button_disabled : bool;
  button_label : string
}.

Definition FontAnalyzerForm (prompt : string) (loading : bool) : FormView :=
  mkFormView prompt loading loading
    (if loading then "Analyzing..." else "Get Font Suggestion").

(** [App.tsx], lines 172-177. *)
Definition form (w : World) : FormView := FontAnalyzerForm (prompt w) (loading w).

(** ** [App.tsx], lines 17-36: [loadGoogleFont] *)

(** The document is the list of the children of [document.head], in
    document order, each with what [loadGoogleFont] reads or writes of
    it.  (An element with the id of the font link elsewhere in the
    document is not covered.) *)
Record Element := mkElement {
  el_id : string;
  rel : string;
  href : string;
  dataset_fontName : option string
}.

(** [document.getElementById(id)]: the first element with that id. *)
Definition getElementById (id : string) (doc : list Element) : option Element :=
  find (fun el => el_id el =? id) doc.

(** [existingLink.remove()], for the element [getElementById] found:
    the first element with that id leaves the document. *)
Fixpoint detach (id : string) (doc : list Element) : list Element :=
  match doc with
  | [] => []
  | el :: rest => if el_id el =? id then rest else el :: detach id rest
  end.

(** [fontName.replace(/\s/g, "+")] *)
Fixpoint replace_whitespace (s : string) : string :=
  match s with
  | EmptyString => EmptyString
  | String c rest =>
      String (if is_whitespace c then "+"%char else c) (replace_whitespace rest)
  end.

(** [`https://fonts.googleapis.com/css2?family=${formattedFontName}:wght@400;700;900&display=swap`] *)
Definition fontLink (fontName : string) : string :=
  "https://fonts.googleapis.com/css2?family=" ++ replace_whitespace fontName
  ++ ":wght@400;700;900&display=swap".

(** The [<link>] element lines 29-34 build. *)
Definition font_link_element (fontName : string) : Element :=
  mkElement "google-font-link" "stylesheet" (fontLink fontName) (Some fontName).

Definition loadGoogleFont (fontName : string) (doc : list Element) : list Element :=
  if negb (truthy fontName) then doc
  else
    let existingLink := getElementById "google-font-link" doc in
    if match existingLink with
       | Some el =>
           match dataset_fontName el with
           | Some loaded => loaded =? fontName
           | None => false
           end
       | None => false
       end
    then doc
    else
      let doc' :=
        match existingLink with
        | Some _ => detach "google-font-link" doc
        | None => doc
        end in
      (doc' ++ [font_link_element fontName])%list.

(** ** [App.tsx], lines 144-151: the effect that follows [result] *)

Record FontState := mkFontState {
  currentFontRef : option string;
  document : list Element
}.

(** [result?.font_name?.trim() || null] *)
Definition nextFont_of (result : option SuggestionObj) : option string :=
  match result with
  | Some r =>
      let trimmed := trim (font_name (fields r)) in
      if truthy trimmed then Some trimmed else None
  | None => None
  end.

Definition font_effect (result : option SuggestionObj) (s : FontState) : FontState :=
  match nextFont_of result with
  | None => s
  | Some nextFont =>
      if match currentFontRef s with
         | Some current => current =? nextFont
         | None => false
         end
      then s
      else mkFontState (Some nextFont) (loadGoogleFont nextFont (document s))
  end.

(** The dependency list [[result]]: React compares the old and the new
    [result] by identity and runs the effect when they differ. *)
Definition same_object (a b : option SuggestionObj) : bool :=
  match a, b with
  | None, None => true
  | Some x, Some y => (obj_id x =? obj_id y)%nat
  | _, _ => false
  end.

Definition rerender (before after : option SuggestionObj) (s : FontState) : FontState :=
  if same_object before after then s else font_effect after s.

(** The component with its font loader. *)
Record Page := mkPage {
  app : World;
  fonts : FontState
}.

(** A freshly mounted page: the effect has run once, on [result = null]. *)
Definition mounted (doc : list Element) : Page :=
  mkPage initial (font_effect None (mkFontState None doc)).

(** The commit that takes the component to the state [w']: the effect
    runs if [result] is another object than before. *)
Definition commit (w' : World) (p : Page) : Page :=
  mkPage w' (rerender (result (app p)) (result w') (fonts p)).

(** The user edits the input. *)
Definition type_and_commit (v : string) (p : Page) : Page :=
  commit (final (setPrompt v (app p))) p.

(** One call of [handleSubmit], run to its end.  [result] is assigned
    at most once in a call, so the effect sees the change, if any, once. *)
Definition submit_and_commit (env : Env) (e : bool) (initialPrompt : option string)
    (p : Page) : Page :=
  commit (final (handleSubmit env e initialPrompt (app p))) p.

(** The pages the user can reach when the component is mounted into
    the document [doc]. *)
Inductive page_reachable (doc : list Element) : Page -> Prop :=
| page_mounted : page_reachable doc (mounted doc)
| page_typed (v : string) (p : Page) :
    page_reachable doc p -> page_reachable doc (type_and_commit v p)
| page_submitted (env : Env) (e : bool) (initialPrompt : option string) (p : Page) :
    page_reachable doc p -> page_reachable doc (submit_and_commit env e initialPrompt p).

Definition is_font_link (el : Element) : bool := el_id el =? "google-font-link".

(** The document holds at most one element with the id of the font link. *)
Definition one_font_link (doc : list Element) : Prop :=
  length (filter is_font_link doc) <= 1.

(** The elements of the document that are none of the font loader's business. *)
Definition others (doc : list Element) : list Element :=
  filter (fun el => negb (is_font_link el)) doc.

(** The ref and the document agree: the font the ref remembers is the
    one whose link is in the document, and with no font remembered there
    is no link. *)
Definition in_sync (s : FontState) : Prop :=
  one_font_link (document s)
  /\ match currentFontRef s with
     | Some f =>
         f <> ""
         /\ getElementById "google-font-link" (document s) = Some (font_link_element f)
     | None => getElementById "google-font-link" (document s) = None
     end.

(** Identities tell objects apart: identity 0 is the fallback object's alone. *)
Definition heap_tidy (w : World) : Prop :=
  heap_ok w
  /\ forall o, result w = Some o -> obj_id o = 0 -> o = MOCK_FONT_SUGGESTION.

(** The font loader has caught up with the stored result. *)
Definition font_settled (p : Page) : Prop :=
  match nextFont_of (result (app p)) with
  | Some f => currentFontRef (fonts p) = Some f
  | None => True
  end.

(** No white space in a string. *)
Fixpoint no_whitespace (s : string) : bool :=
  match s with
  | EmptyString => true
  | String c rest => negb (is_whitespace c) && no_whitespace rest
  end.

(** ** Further observations on a run *)

(** The time the timers of a run add up to, in milliseconds. *)
Fixpoint waited (fxs : list Effect) : N :=
  match fxs with
  | [] => 0%N
  | SetTimeout ms :: rest => (ms + waited rest)%N
  | _ :: rest => waited rest
  end.

(** Every network call among the effects is a request to [API_URL]
    carrying [currentPrompt]. *)
Definition fetches_are (currentPrompt : string) (fxs : list Effect) : Prop :=
  forall url p, In (Fetch url p) fxs -> url = API_URL /\ p = currentPrompt.

(** A computation that keeps a property of the state. *)
Definition keeps {A} (P : World -> Prop) (m : M A) : Prop :=
  forall w, P w -> P (final (m w)).

(** While the call is suspended the user may type, but submits nothing. *)
Definition only_typing (env : Env) : Prop :=
  forall site ev, In ev (during env site) -> exists v, ev = Typed v.

(** ** The server: [POST /api/suggest-font] *)

(** The double quote, for the messages that contain one. *)
Definition dquote : string := String (ascii_of_nat 34) EmptyString.

(** How [ai.models.generateContent] settles: it resolves with a
    response whose [text] is a string or undefined, or it rejects.  (A
    rejection with [null] or [undefined], on which [error.message] in the
    handler's [catch] would itself throw, is not covered.) *)
Inductive AiOutcome :=
| AiAnswers (text : option string)
| AiRejects (err : Thrown).

Inductive ServerEffect :=
| ConsoleLog (msg : string)
| ConsoleErr (label : string) (detail : option string)
| GenerateContent (contents : string).

(** The JSON body of a reply: an object of string fields built by the
    handler, or the parsed answer of the model passed through. *)
Inductive ReplyJson (J : Type) :=
| ObjectOf (members : list (string * string))
| PassedOn (parsedJson : J).
Arguments ObjectOf {J} members.
Arguments PassedOn {J} parsedJson.

Record Reply (J : Type) := mkReply {
  reply_status : N;
  reply_json : ReplyJson J
}.
Arguments mkReply {J} reply_status reply_json.
Arguments reply_status {J} r.
Arguments reply_json {J} r.

(** [error.message]: undefined for a thrown value that has none. *)
Definition message_of (err : Thrown) : option string :=
  match err with
  | ErrorObject m => Some m
  | NotAnError => None
  end.

(** A member with an undefined value is left out by [res.json]. *)
Definition optional_member (key : string) (value : option string) : list (string * string) :=
  match value with
  | Some v => [(key, v)]
  | None => []
  end.

Definition member (key : string) (members : list (string * string)) : option string :=
  match find (fun kv => fst kv =? key) members with
  | Some kv => Some (snd kv)
  | None => None
  end.

Section Server.
(** [JSON.parse], which the handler calls on the model's answer, is a
    parameter: [None] when it throws.  [J] is the type of what it returns. *)
Variable J : Type.
Variable JSON_parse : string -> option J.

(** The [catch] of lines 126-133. *)
Definition ai_failure (error : Thrown) : Reply J * list ServerEffect :=
  (mkReply 500
     (ObjectOf (("error", "Failed to generate content from AI.")
                :: optional_member "details" (message_of error))),
   [ConsoleErr "Gemini API Error:" (message_of error)]).

(** Lines 88-134.  [prompt] is the member of that name of the request
    body, a string as this repository's client sends it, or missing; [ai]
    is the way the call to the model settles.  Reading [text] of a
    response without one throws a [TypeError] (the message is V8's). *)
Definition suggest_font (prompt : option string) (ai : AiOutcome)
  : Reply J * list ServerEffect :=
  let missing :=
    (mkReply 400
       (ObjectOf [("error",
                   "Missing " ++ dquote ++ "prompt" ++ dquote
                   ++ " in request body. Please provide the title text.")]),
     []) in
  match prompt with
  | None => missing
  | Some p =>
      if negb (truthy p) then missing
      else
        let started :=
          [ConsoleLog ("Received title for analysis: " ++ dquote
                       ++ substring 0 50 p ++ "..." ++ dquote);
           GenerateContent p] in
        let failed (error : Thrown) :=
          (fst (ai_failure error), (started ++ snd (ai_failure error))%list) in
        match ai with
        | AiRejects error => failed error
        | AiAnswers None =>
            failed (ErrorObject "Cannot read properties of undefined (reading 'trim')")
        | AiAnswers (Some text) =>
            let jsonString := trim text in
            match JSON_parse jsonString with
            | Some parsedJson => (mkReply 200 (PassedOn parsedJson), started)
            | None =>
                (mkReply 500
                   (ObjectOf [("error", "AI returned non-JSON data.");
                              ("raw_response", jsonString)]),
                 (started
                  ++ [ConsoleErr "Failed to parse AI response as JSON:" (Some jsonString)])%list)
            end
        end
  end.

(** The reply as the client receives it; [view] is how the client reads
    a passed-on answer at the type [FontSuggestion]. *)
Variable view : J -> Body.

Definition to_response (r : Reply J) : Response :=
  mkResponse (reply_status r)
    (JsonResolves
       match reply_json r with
       | ObjectOf members => mkBody "" "" (member "details" members)
       | PassedOn parsedJson => view parsedJson
       end).

(** The network in front of this server, with a connection that holds:
    attempt [i] of the client, which carries [currentPrompt], is
    answered by the handler, whose call to the model settles as [ai i];
    what [res.json] sends is what [response.json()] reads. *)
Definition backend (ai : nat -> AiOutcome) (currentPrompt : string)
    (evs : AwaitSite -> list UIEvent) : Env :=
  mkEnv (fun i => Resolved (to_response (fst (suggest_font (Some currentPrompt) (ai i)))))
        evs.

(** The calls to the model behind the client's requests. *)
Definition model_calls (fx : list ServerEffect) : nat :=
  length (filter (fun e => match e with GenerateContent _ => true | _ => false end) fx).
End Server.

(* ================================================================== *)
(** * Part II.  Properties                                             *)
(* ================================================================== *)

(** Splits a conjunction into its parts, and nothing else. *)
Ltac splits := repeat match goal with |- _ /\ _ => split end.

(** ** Trimming *)

Lemma trimStart_blank (s : string) : trimStart s = "" <-> blank s = true.
Proof.
  induction s as [|c rest IH]; simpl.
  - tauto.
  - destruct (is_whitespace c); simpl.
    + exact IH.
    + split; discriminate.
Qed.

Lemma trimEnd_blank (s : string) : trimEnd s = "" <-> blank s = true.
Proof.
  induction s as [|c rest IH]; simpl.
  - tauto.
  - destruct (trimEnd rest) eqn:E.
    + destruct (is_whitespace c); simpl.
      * split; intros _; [apply IH|]; reflexivity.
      * split; discriminate.
    + split; [discriminate|].
      intros H. apply andb_true_iff in H as [_ H].
      apply IH in H. discriminate.
Qed.

Lemma trimStart_head (s : string) :
  trimStart s = "" \/ exists c rest, trimStart s = String c rest /\ is_whitespace c = false.
Proof.
  induction s as [|c rest IH]; simpl.
  - now left.
  - destruct (is_whitespace c) eqn:E.
    + exact IH.
    + right. now exists c, rest.
Qed.

(** [trim] leaves nothing exactly of the titles made of white space. *)
Lemma trim_blank (s : string) : trim s = "" <-> blank s = true.
Proof.
  unfold trim. rewrite trimEnd_blank, <- (trimStart_blank s).
  destruct (trimStart_head s) as [E | (c & rest & E & Hc)]; rewrite E; simpl.
  - split; reflexivity.
  - rewrite Hc. simpl. split; discriminate.
Qed.

Lemma truthy_nonempty (s : string) : truthy s = true <-> s <> "".
Proof.
  unfold truthy. destruct (String.eqb_spec s ""); simpl; split; congruence.
Qed.

(** ** The frame of a suspension *)

Lemma drift_refl (w : World) : drift w w.
Proof. repeat split. Qed.

Lemma drift_trans (w1 w2 w3 : World) : drift w1 w2 -> drift w2 w3 -> drift w1 w3.
Proof.
  unfold drift. intros (A1 & A2 & A3 & A4 & A5) (B1 & B2 & B3 & B4 & B5).
  repeat split; congruence.
Qed.

(** ** The short-circuit checks, case by case *)

Section Guards.
Variable initialPrompt : option string.
Variable w : World.
Let currentPrompt := currentPrompt_of initialPrompt (prompt w).

Lemma guards_blank :
  currentPrompt = "" ->
  guards initialPrompt w = mkRun (Normal None) (rejected_blank w) [].
Proof.
  intros H. unfold guards, bind; simpl. fold currentPrompt.
  rewrite H. reflexivity.
Qed.

Lemma guards_busy :
  currentPrompt <> "" -> inFlightRef w = true ->
  guards initialPrompt w = mkRun (Normal None) w [].
Proof.
  intros H Hb. apply truthy_nonempty in H.
  unfold guards, bind; simpl. fold currentPrompt.
  rewrite H; simpl. rewrite Hb; simpl. reflexivity.
Qed.

Lemma guards_same :
  currentPrompt <> "" -> inFlightRef w = false ->
  lastPromptRef w = Some currentPrompt ->
  guards initialPrompt w = mkRun (Normal None) w [].
Proof.
  intros H Hb Hl. apply truthy_nonempty in H.
  unfold guards, bind; simpl. fold currentPrompt.
  rewrite H; simpl. rewrite Hb; simpl. rewrite Hl, H, String.eqb_refl; simpl.
  reflexivity.
Qed.

Lemma guards_pass :
  passes_guards initialPrompt w ->
  guards initialPrompt w = mkRun (Normal (Some currentPrompt)) w [].
Proof.
  intros (H & Hb & Hl). fold currentPrompt in H, Hl.
  apply truthy_nonempty in H.
  unfold guards, bind; simpl. fold currentPrompt.
  rewrite H; simpl. rewrite Hb; simpl.
  destruct (lastPromptRef w) as [l|]; simpl; [|reflexivity].
  destruct (String.eqb_spec l currentPrompt) as [->|Hne].
  - congruence.
  - rewrite andb_false_r. reflexivity.
Qed.
End Guards.

(** ** Running the monad *)

Open Scope list_scope.

Lemma timeline_app (a b : list Effect) : timeline (a ++ b) = timeline a ++ timeline b.
Proof. apply filter_app. Qed.

Lemma drift_busy (w w' : World) :
  drift w w' -> inFlightRef w = true -> inFlightRef w' = true.
Proof. intros (_ & _ & H & _) Hb. rewrite H. exact Hb. Qed.

Section Steps.
Context {A B : Type}.

Lemma bind_normal (m : M A) (k : A -> M B) (w w1 w2 : World) a o fx fx' :
  m w = mkRun (Normal a) w1 fx ->
  k a w1 = mkRun o w2 fx' ->
  bind m k w = mkRun o w2 (fx ++ fx').
Proof. intros Hm Hk. unfold bind. rewrite Hm, Hk. reflexivity. Qed.

Lemma bind_throw (m : M A) (k : A -> M B) (w w1 : World) x fx :
  m w = mkRun (Throw x) w1 fx ->
  bind m k w = mkRun (Throw x) w1 fx.
Proof. intros Hm. unfold bind. rewrite Hm. reflexivity. Qed.

Lemma try_catch_normal (m : M A) (h : Thrown -> M A) (w w1 : World) a fx :
  m w = mkRun (Normal a) w1 fx ->
  try_catch m h w = mkRun (Normal a) w1 fx.
Proof. intros Hm. unfold try_catch. rewrite Hm. reflexivity. Qed.

Lemma try_catch_throw (m : M A) (h : Thrown -> M A) (w w1 w2 : World) x o fx fx' :
  m w = mkRun (Throw x) w1 fx ->
  h x w1 = mkRun o w2 fx' ->
  try_catch m h w = mkRun o w2 (fx ++ fx').
Proof. intros Hm Hh. unfold try_catch. rewrite Hm, Hh. reflexivity. Qed.

Lemma try_finally_normal (m : M A) (cleanup : M unit) (w w1 w2 : World) a fx fx' :
  m w = mkRun (Normal a) w1 fx ->
  cleanup w1 = mkRun (Normal tt) w2 fx' ->
  try_finally m cleanup w = mkRun (Normal a) w2 (fx ++ fx').
Proof. intros Hm Hc. unfold try_finally. rewrite Hm, Hc. reflexivity. Qed.
End Steps.

(** A [calm] step followed by a step that is [calm] from any state
    with the guard set. *)
Lemma calm_then {A B} (m : M A) (k : A -> M B) (w : World) a o tl1 tl2 :
  inFlightRef w = true ->
  calm m w (Normal a) tl1 ->
  (forall w1, inFlightRef w1 = true -> calm (k a) w1 o tl2) ->
  calm (bind m k) w o (tl1 ++ tl2).
Proof.
  intros Hb (w1 & fx1 & Hm & Hd & Ht) Hk.
  destruct (Hk w1 (drift_busy _ _ Hd Hb)) as (w2 & fx2 & Hk' & Hd' & Ht').
  exists w2, (fx1 ++ fx2). splits.
  - exact (bind_normal m k w w1 w2 a o fx1 fx2 Hm Hk').
  - exact (drift_trans _ _ _ Hd Hd').
  - rewrite timeline_app, Ht, Ht'. reflexivity.
Qed.

Lemma calm_thrown {A B} (m : M A) (k : A -> M B) (w : World) x tl :
  calm m w (Throw x) tl -> calm (bind m k) w (Throw x) tl.
Proof.
  intros (w1 & fx1 & Hm & Hd & Ht). exists w1, fx1.
  split; [exact (bind_throw m k w w1 x fx1 Hm) | split; assumption].
Qed.

Lemma calm_uncaught {A} (m : M A) (h : Thrown -> M A) (w : World) a tl :
  calm m w (Normal a) tl -> calm (try_catch m h) w (Normal a) tl.
Proof.
  intros (w1 & fx1 & Hm & Hd & Ht). exists w1, fx1.
  split; [exact (try_catch_normal m h w w1 a fx1 Hm) | split; assumption].
Qed.

Lemma calm_caught {A} (m : M A) (h : Thrown -> M A) (w : World) x o tl1 tl2 :
  inFlightRef w = true ->
  calm m w (Throw x) tl1 ->
  (forall w1, inFlightRef w1 = true -> calm (h x) w1 o tl2) ->
  calm (try_catch m h) w o (tl1 ++ tl2).
Proof.
  intros Hb (w1 & fx1 & Hm & Hd & Ht) Hh.
  destruct (Hh w1 (drift_busy _ _ Hd Hb)) as (w2 & fx2 & Hh' & Hd' & Ht').
  exists w2, (fx1 ++ fx2). splits.
  - exact (try_catch_throw m h w w1 w2 x o fx1 fx2 Hm Hh').
  - exact (drift_trans _ _ _ Hd Hd').
  - rewrite timeline_app, Ht, Ht'. reflexivity.
Qed.

Lemma calm_as {A} (m : M A) (w : World) o o' tl tl' :
  calm m w o tl -> o = o' -> tl = tl' -> calm m w o' tl'.
Proof. intros H -> ->. exact H. Qed.

Lemma calm_ret {A} (a : A) (w : World) : calm (ret a) w (Normal a) [].
Proof. exists w, []. split; [reflexivity | split; [apply drift_refl | reflexivity]]. Qed.

Lemma calm_throw {A} (x : Thrown) (w : World) : calm (@throw A x) w (Throw x) [].
Proof. exists w, []. split; [reflexivity | split; [apply drift_refl | reflexivity]]. Qed.

Lemma calm_emit (fx : Effect) (w : World) :
  calm (emit fx) w (Normal tt) (timeline [fx]).
Proof. exists w, [fx]. split; [reflexivity | split; [apply drift_refl | reflexivity]]. Qed.

(** ** Events delivered while a request is in flight *)

Lemma preventDefault_run (e : bool) (w : World) :
  preventDefault e w = mkRun (Normal tt) w (default_prevented e).
Proof. destruct e; reflexivity. Qed.

Lemma timeline_default_prevented (e : bool) (fxs : list Effect) :
  timeline (default_prevented e ++ fxs) = timeline fxs.
Proof. destruct e; reflexivity. Qed.

Lemma drift_rejected_blank (w : World) : drift w (rejected_blank w).
Proof. repeat split. Qed.

(** A submission that arrives while the guard is set changes at most
    the [error] field and reaches neither the network nor a timer. *)
Lemma dispatch_busy (ev : UIEvent) (w : World) :
  inFlightRef w = true -> calm (dispatch ev) w (Normal tt) [].
Proof.
  intros Hb. destruct ev as [v | e initialPrompt].
  - eexists _, []. split; [reflexivity | split; [|reflexivity]]. repeat split.
  - unfold dispatch.
    destruct (String.eqb_spec (currentPrompt_of initialPrompt (prompt w)) "") as [E | E].
    + exists (rejected_blank w), (default_prevented e ++ ([] ++ [])).
      splits.
      * eapply bind_normal; [apply preventDefault_run|].
        eapply bind_normal; [apply guards_blank, E | reflexivity].
      * apply drift_rejected_blank.
      * apply timeline_default_prevented.
    + exists w, (default_prevented e ++ ([] ++ [])).
      splits.
      * eapply bind_normal; [apply preventDefault_run|].
        eapply bind_normal; [apply guards_busy; assumption | reflexivity].
      * apply drift_refl.
      * apply timeline_default_prevented.
Qed.

Lemma meanwhile_busy (evs : list UIEvent) (w : World) :
  inFlightRef w = true -> calm (meanwhile evs) w (Normal tt) [].
Proof.
  revert w. induction evs as [|ev rest IH]; intros w Hb; simpl.
  - apply calm_ret.
  - change (@nil Effect) with (@nil Effect ++ @nil Effect).
    eapply calm_then; [exact Hb | apply dispatch_busy, Hb |].
    intros w1 Hb1. apply IH, Hb1.
Qed.

Section Awaits.
Variable env : Env.
Variable w : World.
Hypothesis busy : inFlightRef w = true.

Lemma calm_suspend (site : AwaitSite) : calm (suspend env site) w (Normal tt) [].
Proof. apply meanwhile_busy, busy. Qed.

Lemma calm_sleep (site : AwaitSite) (ms : N) :
  calm (sleep env site ms) w (Normal tt) [SetTimeout ms].
Proof.
  unfold sleep. change [SetTimeout ms] with (timeline [SetTimeout ms] ++ []).
  eapply calm_then; [exact busy | apply calm_emit |].
  intros w1 Hb1. apply meanwhile_busy, Hb1.
Qed.

Lemma calm_fetch (currentPrompt : string) (i : nat) :
  calm (fetch env currentPrompt i) w
    (match fetch_result env i with
     | Resolved r => Normal r
     | Rejected x => Throw x
     end)
    [Fetch API_URL currentPrompt].
Proof.
  unfold fetch.
  change [Fetch API_URL currentPrompt]
    with (timeline [Fetch API_URL currentPrompt] ++ ([] ++ [])).
  eapply calm_then; [exact busy | apply calm_emit |].
  intros w1 Hb1.
  eapply calm_then; [exact Hb1 | apply meanwhile_busy, Hb1 |].
  intros w2 Hb2.
  destruct (fetch_result env i); [apply calm_ret | apply calm_throw].
Qed.

Lemma calm_json (r : Response) :
  calm (json env r) w
    (match json_result r with
     | JsonResolves b => Normal b
     | JsonRejects x => Throw x
     end)
    [].
Proof.
  unfold json. change (@nil Effect) with (@nil Effect ++ @nil Effect).
  eapply calm_then; [exact busy | apply calm_suspend |].
  intros w1 Hb1.
  destruct (json_result r); [apply calm_ret | apply calm_throw].
Qed.
End Awaits.

(** ** The retry loop *)

(** The loop completes as [loop_exit] says and reaches the network and
    the timers as [loop_schedule] says, whatever arrives meanwhile. *)
Lemma retry_loop_run (env : Env) (currentPrompt : string) (fuel : nat) :
  forall (i : nat) (response : option Response) (w : World),
    inFlightRef w = true ->
    calm (retry_loop env currentPrompt fuel i response) w
      (loop_exit (fetch_result env) fuel i response)
      (loop_schedule (fetch_result env) currentPrompt fuel i).
Proof.
  induction fuel as [|fuel IH]; intros i response w Hb; simpl.
  - apply calm_ret.
  - pose proof (calm_fetch env w Hb currentPrompt i) as Hfetch.
    destruct (fetch_result env i) as [r | fetchErr].
    + (* the fetch resolved *)
      destruct (ok r) eqn:Hok; [|destruct (retryable r) eqn:Hretry].
      * eapply calm_as; [eapply calm_then; [exact Hb| |]| |].
        -- apply calm_uncaught.
           eapply calm_then; [exact Hb | exact Hfetch |].
           intros w1 Hb1. rewrite Hok. apply calm_ret.
        -- intros w1 Hb1. apply calm_ret.
        -- reflexivity.
        -- reflexivity.
      * eapply calm_as; [eapply calm_then; [exact Hb| |]| |].
        -- apply calm_uncaught.
           eapply calm_then; [exact Hb | exact Hfetch |].
           intros w1 Hb1. rewrite Hok, Hretry.
           eapply calm_then; [exact Hb1 | apply calm_sleep, Hb1 |].
           intros w2 Hb2. apply calm_ret.
        -- intros w1 Hb1. apply IH, Hb1.
        -- reflexivity.
        -- reflexivity.
      * eapply calm_as; [eapply calm_then; [exact Hb| |]| |].
        -- apply calm_uncaught.
           eapply calm_then; [exact Hb | exact Hfetch |].
           intros w1 Hb1. rewrite Hok, Hretry. apply calm_ret.
        -- intros w1 Hb1. apply calm_ret.
        -- reflexivity.
        -- reflexivity.
    + (* the fetch rejected *)
      change (maxRetries - 1) with 2 in *.
      destruct (i =? 2)%nat eqn:Hlast.
      * eapply calm_as; [eapply calm_thrown| |].
        -- eapply calm_caught; [exact Hb | apply calm_thrown, Hfetch |].
           intros w1 Hb1. apply calm_throw.
        -- reflexivity.
        -- reflexivity.
      * eapply calm_as; [eapply calm_then; [exact Hb| |]| |].
        -- eapply calm_caught; [exact Hb | apply calm_thrown, Hfetch |].
           intros w1 Hb1.
           eapply calm_then; [exact Hb1 | apply calm_sleep, Hb1 |].
           intros w2 Hb2. apply calm_ret.
        -- intros w1 Hb1. apply IH, Hb1.
        -- reflexivity.
        -- reflexivity.
Qed.

Lemma loop_exit_not_overlap (net : nat -> FetchOutcome) (fuel : nat) :
  forall i response, loop_exit net fuel i response <> Overlap.
Proof.
  induction fuel as [|fuel IH]; intros i response; simpl.
  - discriminate.
  - destruct (net i) as [r | fetchErr].
    + destruct (ok r); [discriminate|].
      destruct (retryable r); [apply IH | discriminate].
    + change (maxRetries - 1) with 2.
      destruct (i =? 2)%nat; [discriminate | apply IH].
Qed.

(** ** The [try] block *)

Lemma fail_with_response_run (env : Env) (response : option Response) (w : World) :
  inFlightRef w = true ->
  calm (fail_with_response env response) w
    (Throw (ErrorObject
       (failure_text (match response with Some r => errData_of r | None => None end)
          response)))
    [].
Proof.
  intros busy.
  unfold fail_with_response. destruct response as [r|].
  - pose proof (calm_json env w busy r) as Hj. unfold errData_of.
    destruct (json_result r) as [b | x].
    + change (@nil Effect) with (([] ++ []) ++ @nil Effect).
      eapply calm_then; [exact busy | |].
      * apply calm_uncaught.
        eapply calm_then; [exact busy | exact Hj |].
        intros w1 _. apply calm_ret.
      * intros w1 _. apply calm_throw.
    + change (@nil Effect) with (([] ++ []) ++ @nil Effect).
      eapply calm_then; [exact busy | |].
      * eapply calm_caught; [exact busy | apply calm_thrown, Hj |].
        intros w1 _. apply calm_ret.
      * intros w1 _. apply calm_throw.
  - change (@nil Effect) with (([] ++ []) ++ @nil Effect).
    eapply calm_then; [exact busy | |].
    + eapply calm_caught; [exact busy | apply calm_throw |].
      intros w1 _. apply calm_ret.
    + intros w1 _. apply calm_throw.
Qed.

Section TryBlock.
Variable env : Env.
Variable currentPrompt : string.
Variable w : World.
Hypothesis busy : inFlightRef w = true.

Let schedule := loop_schedule (fetch_result env) currentPrompt maxRetries 0.

(** When the [try] block throws, the state is as it was (up to what
    arrived meanwhile): no result has been stored, Dedup Memory is
    untouched. *)
Lemma try_body_throws (x : Thrown) :
  try_verdict env = Throw x ->
  calm (try_body env currentPrompt) w (Throw x) schedule.
Proof.
  intros Hv. unfold try_verdict, retry_verdict in Hv.
  pose proof (retry_loop_run env currentPrompt maxRetries 0 None w busy) as Hloop.
  fold schedule in Hloop. unfold try_body.
  destruct (loop_exit (fetch_result env) maxRetries 0 None) as [[r|] | y | ] eqn:Hexit.
  - destruct (ok r) eqn:Hok.
    + destruct (json_result r) as [b | z] eqn:Hjr; [discriminate|].
      inversion Hv; subst z.
      eapply calm_as; [eapply calm_then; [exact busy | exact Hloop |]
                      | reflexivity | apply app_nil_r].
      intros w1 Hb1. cbv beta iota. rewrite Hok. apply calm_thrown.
      pose proof (calm_json env w1 Hb1 r) as Hj. rewrite Hjr in Hj. exact Hj.
    + inversion Hv; subst x.
      eapply calm_as; [eapply calm_then; [exact busy | exact Hloop |]
                      | reflexivity | apply app_nil_r].
      intros w1 Hb1. cbv beta iota. rewrite Hok.
      apply (fail_with_response_run env (Some r) w1 Hb1).
  - inversion Hv; subst x.
    eapply calm_as; [eapply calm_then; [exact busy | exact Hloop |]
                    | reflexivity | apply app_nil_r].
    intros w1 Hb1. apply (fail_with_response_run env None w1 Hb1).
  - inversion Hv; subst y. apply calm_thrown. exact Hloop.
  - discriminate.
Qed.

(** When the [try] block returns, the suggestion has been stored (if
    it differs) and the title recorded. *)
Lemma try_body_returns (b : Body) :
  try_verdict env = Normal b ->
  exists w' fx,
    try_body env currentPrompt w = mkRun (Normal tt) w' fx
    /\ timeline fx = schedule
    /\ result w' = keep_if_same (parsed w b) (result w)
    /\ loading w' = loading w
    /\ inFlightRef w' = inFlightRef w
    /\ lastPromptRef w' = Some currentPrompt
    /\ heap_next w' = S (heap_next w).
Proof.
  intros Hv. unfold try_verdict, retry_verdict in Hv.
  destruct (retry_loop_run env currentPrompt maxRetries 0 None w busy)
    as (w1 & fx1 & Hloop & Hd & Ht).
  destruct (loop_exit (fetch_result env) maxRetries 0 None) as [[r0|] | y | ];
    try discriminate.
  destruct (ok r0) eqn:Hok; [|discriminate].
  destruct (calm_json env w1 (drift_busy _ _ Hd busy) r0)
    as (w2 & fx2 & Hj & Hjd & Hjt).
  destruct (json_result r0) as [b0 | z]; [|discriminate].
  inversion Hv; subst b0.
  destruct Hd as (D1 & D2 & D3 & D4 & D5).
  destruct Hjd as (E1 & E2 & E3 & E4 & E5).
  eexists _, _. splits.
  - unfold try_body.
    eapply bind_normal; [exact Hloop|].
    cbv beta iota. rewrite Hok.
    eapply bind_normal; [exact Hj|].
    reflexivity.
  - rewrite !timeline_app, Ht, Hjt. cbn. rewrite !app_nil_r. reflexivity.
  - cbn. unfold parsed. rewrite E1, E5, D1, D5. reflexivity.
  - cbn. congruence.
  - cbn. congruence.
  - reflexivity.
  - cbn. congruence.
Qed.
End TryBlock.

Lemma try_verdict_not_overlap (env : Env) : try_verdict env <> Overlap.
Proof.
  unfold try_verdict, retry_verdict.
  pose proof (loop_exit_not_overlap (fetch_result env) maxRetries 0 None) as H.
  destruct (loop_exit (fetch_result env) maxRetries 0 None) as [[r|] | x | ];
    try discriminate; [|congruence].
  destruct (ok r); [destruct (json_result r)|]; discriminate.
Qed.

(** ** The [catch] block *)

Lemma modify_run (f : World -> World) (w : World) :
  modify f w = mkRun (Normal tt) (f w) [].
Proof. reflexivity. Qed.

Lemma catch_block_fallback (env : Env) (currentPrompt : string) (err : Thrown) (w : World) :
  inFlightRef w = true ->
  looks_like_network_error (errorMsg_of err) = true ->
  exists w' fx,
    catch_block env currentPrompt err w = mkRun (Normal tt) w' fx
    /\ timeline fx = [SetTimeout 500]
    /\ result w' = keep_if_same MOCK_FONT_SUGGESTION (result w)
    /\ loading w' = loading w
    /\ inFlightRef w' = inFlightRef w
    /\ lastPromptRef w' = Some currentPrompt
    /\ heap_next w' = heap_next w
    /\ error w' = Some mock_notice.
Proof.
  intros busy Hnet.
  destruct (calm_sleep env w busy AtMockDelay 500) as (w1 & fx1 & Hs & Hd & Ht).
  destruct Hd as (D1 & D2 & D3 & D4 & D5).
  eexists _, _. splits.
  - unfold catch_block. rewrite Hnet.
    eapply bind_normal; [reflexivity|].
    eapply bind_normal; [exact Hs|].
    reflexivity.
  - rewrite !timeline_app, Ht. reflexivity.
  - cbn. rewrite D1. reflexivity.
  - cbn. exact D2.
  - cbn. exact D3.
  - reflexivity.
  - cbn. exact D5.
  - reflexivity.
Qed.

Lemma catch_block_report (env : Env) (currentPrompt : string) (err : Thrown) (w : World) :
  looks_like_network_error (errorMsg_of err) = false ->
  catch_block env currentPrompt err w
  = mkRun (Normal tt)
      (mkWorld (prompt w) (result w) (loading w)
         (Some ("Server Error: " ++ errorMsg_of err ++ ".")%string)
         (inFlightRef w) (lastPromptRef w) (heap_next w))
      [ConsoleError "API Error:" err].
Proof.
  intros Hnet. unfold catch_block. rewrite Hnet. reflexivity.
Qed.

(** ** The request: [try], [catch], [finally] *)

(** Lines 70-72, then the guarded block started from [begun w], then
    the [finally] block. *)
Lemma request_run (env : Env) (currentPrompt : string) (w w1 : World) (fx : list Effect) :
  try_catch (try_body env currentPrompt) (catch_block env currentPrompt) (begun w)
  = mkRun (Normal tt) w1 fx ->
  request env currentPrompt w = mkRun (Normal tt) (released w1) fx.
Proof.
  intros Ht. unfold request.
  rewrite <- (app_nil_r fx).
  change (fx ++ []) with ([] ++ ([] ++ ([] ++ (fx ++ [])))).
  eapply bind_normal; [apply modify_run|].
  eapply bind_normal; [apply modify_run|].
  eapply bind_normal; [apply modify_run|].
  eapply try_finally_normal; [exact Ht|].
  reflexivity.
Qed.

Section Request.
Variable env : Env.
Variable currentPrompt : string.
Variable w : World.

Let schedule := loop_schedule (fetch_result env) currentPrompt maxRetries 0.

Lemma begun_busy : inFlightRef (begun w) = true.
Proof. reflexivity. Qed.

(** The [try] block returned: the suggestion is stored, the title recorded. *)
Lemma request_succeeds (b : Body) :
  try_verdict env = Normal b ->
  exists w' fx,
    request env currentPrompt w = mkRun (Normal tt) w' fx
    /\ timeline fx = schedule
    /\ result w' = keep_if_same (parsed w b) (result w)
    /\ loading w' = false
    /\ inFlightRef w' = false
    /\ lastPromptRef w' = Some currentPrompt
    /\ heap_next w' = S (heap_next w).
Proof.
  intros Hv.
  destruct (try_body_returns env currentPrompt (begun w) begun_busy b Hv)
    as (w1 & fx & Hb & Bt & B1 & B2 & B3 & B4 & B5).
  exists (released w1), fx.
  splits.
  - apply request_run. eapply try_catch_normal. exact Hb.
  - exact Bt.
  - exact B1.
  - reflexivity.
  - reflexivity.
  - exact B4.
  - exact B5.
Qed.

(** The [try] block threw something that reads like a network failure. *)
Lemma request_falls_back (x : Thrown) :
  try_verdict env = Throw x ->
  looks_like_network_error (errorMsg_of x) = true ->
  exists w' fx,
    request env currentPrompt w = mkRun (Normal tt) w' fx
    /\ timeline fx = schedule ++ [SetTimeout 500]
    /\ result w' = keep_if_same MOCK_FONT_SUGGESTION (result w)
    /\ loading w' = false
    /\ inFlightRef w' = false
    /\ lastPromptRef w' = Some currentPrompt
    /\ heap_next w' = heap_next w
    /\ error w' = Some mock_notice.
Proof.
  intros Hv Hnet.
  destruct (try_body_throws env currentPrompt (begun w) begun_busy x Hv)
    as (w1 & fx1 & Hb & Bd & Bt).
  destruct (catch_block_fallback env currentPrompt x w1
              (drift_busy _ _ Bd begun_busy) Hnet)
    as (w2 & fx2 & Hc & Ct & C1 & C2 & C3 & C4 & C5 & C6).
  destruct Bd as (D1 & D2 & D3 & D4 & D5).
  exists (released w2), (fx1 ++ fx2).
  splits.
  - apply request_run. eapply try_catch_throw; [exact Hb | exact Hc].
  - rewrite timeline_app, Bt, Ct. reflexivity.
  - cbn. rewrite C1, D1. reflexivity.
  - reflexivity.
  - reflexivity.
  - exact C4.
  - cbn. rewrite C5, D5. reflexivity.
  - exact C6.
Qed.

(** The [try] block threw anything else. *)
Lemma request_reports (x : Thrown) :
  try_verdict env = Throw x ->
  looks_like_network_error (errorMsg_of x) = false ->
  exists w' fx,
    request env currentPrompt w = mkRun (Normal tt) w' fx
    /\ timeline fx = schedule
    /\ result w' = result w
    /\ loading w' = false
    /\ inFlightRef w' = false
    /\ lastPromptRef w' = lastPromptRef w
    /\ heap_next w' = heap_next w
    /\ error w' = Some ("Server Error: " ++ errorMsg_of x ++ ".")%string.
Proof.
  intros Hv Hnet.
  destruct (try_body_throws env currentPrompt (begun w) begun_busy x Hv)
    as (w1 & fx1 & Hb & Bd & Bt).
  destruct Bd as (D1 & D2 & D3 & D4 & D5).
  eexists _, _.
  splits.
  - apply request_run. eapply try_catch_throw; [exact Hb|].
    apply catch_block_report, Hnet.
  - rewrite timeline_app, Bt. apply app_nil_r.
  - exact D1.
  - reflexivity.
  - reflexivity.
  - exact D4.
  - exact D5.
  - reflexivity.
Qed.

(** However the [try] block ends, the request completes with the
    guard and the loading flag off. *)
Lemma request_releases :
  exists w' fx,
    request env currentPrompt w = mkRun (Normal tt) w' fx
    /\ inFlightRef w' = false
    /\ loading w' = false.
Proof.
  destruct (try_verdict env) as [b | x | ] eqn:Hv.
  - destruct (request_succeeds b Hv) as (w' & fx & Hr & _ & _ & Hl & Hf & _).
    exists w', fx. auto.
  - destruct (looks_like_network_error (errorMsg_of x)) eqn:Hnet.
    + destruct (request_falls_back x Hv Hnet) as (w' & fx & Hr & _ & _ & Hl & Hf & _).
      exists w', fx. auto.
    + destruct (request_reports x Hv Hnet) as (w' & fx & Hr & _ & _ & Hl & Hf & _).
      exists w', fx. auto.
  - destruct (try_verdict_not_overlap env Hv).
Qed.
End Request.

(** ** [handleSubmit] as a whole *)

Lemma network_calls_none_of_timeline (fxs : list Effect) :
  timeline fxs = [] -> network_calls fxs = 0.
Proof.
  unfold timeline, network_calls. induction fxs as [|fx rest IH]; simpl.
  - reflexivity.
  - destruct fx; simpl; try discriminate; exact IH.
Qed.

Section Whole.
Variable env : Env.
Variable e : bool.
Variable initialPrompt : option string.
Variable w : World.

(** One of the three checks ended the call. *)
Lemma handleSubmit_stops (w' : World) :
  guards initialPrompt w = mkRun (Normal None) w' [] ->
  handleSubmit env e initialPrompt w = mkRun (Normal tt) w' (default_prevented e).
Proof.
  intros Hg. unfold handleSubmit.
  rewrite <- (app_nil_r (default_prevented e)).
  eapply bind_normal; [apply preventDefault_run|].
  change (@nil Effect) with (@nil Effect ++ @nil Effect).
  eapply bind_normal; [exact Hg | reflexivity].
Qed.

(** The checks let the call through to the request. *)
Lemma handleSubmit_goes (currentPrompt : string) (o : Completion unit)
    (w' : World) (fx : list Effect) :
  guards initialPrompt w = mkRun (Normal (Some currentPrompt)) w [] ->
  request env currentPrompt w = mkRun o w' fx ->
  handleSubmit env e initialPrompt w = mkRun o w' (default_prevented e ++ fx).
Proof.
  intros Hg Hr. unfold handleSubmit.
  eapply bind_normal; [apply preventDefault_run|].
  change fx with ([] ++ fx).
  eapply bind_normal; [exact Hg | exact Hr].
Qed.
End Whole.

Lemma option_eq_dec_string (a b : option string) : {a = b} + {a <> b}.
Proof. decide equality. apply string_dec. Qed.

Lemma guards_cases (initialPrompt : option string) (w : World) :
  guards initialPrompt w = mkRun (Normal None) (rejected_blank w) []
  \/ guards initialPrompt w = mkRun (Normal None) w []
  \/ (passes_guards initialPrompt w
      /\ guards initialPrompt w
         = mkRun (Normal (Some (currentPrompt_of initialPrompt (prompt w)))) w []).
Proof.
  destruct (String.eqb_spec (currentPrompt_of initialPrompt (prompt w)) "") as [E | E].
  - left. apply guards_blank, E.
  - right. destruct (inFlightRef w) eqn:Hb.
    + left. apply guards_busy; assumption.
    + destruct (option_eq_dec_string (lastPromptRef w)
                  (Some (currentPrompt_of initialPrompt (prompt w)))) as [Hl | Hl].
      * left. apply guards_same; assumption.
      * right. assert (Hp : passes_guards initialPrompt w) by (repeat split; assumption).
        split; [exact Hp | apply guards_pass, Hp].
Qed.

Lemma handleSubmit_passes (env : Env) (e : bool) (initialPrompt : option string)
    (w w' : World) (o : Completion unit) (fx : list Effect) :
  passes_guards initialPrompt w ->
  request env (currentPrompt_of initialPrompt (prompt w)) w = mkRun o w' fx ->
  handleSubmit env e initialPrompt w = mkRun o w' (default_prevented e ++ fx).
Proof.
  intros Hp Hr. eapply handleSubmit_goes; [apply guards_pass, Hp | exact Hr].
Qed.

Lemma stopped_call_is_quiet (e : bool) :
  network_calls (default_prevented e) = 0 /\ timeline (default_prevented e) = [].
Proof. destruct e; split; reflexivity. Qed.

(** ** Every call, case by case *)

(** What a call of [handleSubmit] does, in full: it completes, and
    either one of the checks stopped it, or the request ran and ended
    in one of three ways. *)
Lemma handleSubmit_cases
    (env : Env) (e : bool) (initialPrompt : option string) (w : World) :
  let currentPrompt := currentPrompt_of initialPrompt (prompt w) in
  exists w' fx,
    handleSubmit env e initialPrompt w = mkRun (Normal tt) w' fx
    /\ (w' = rejected_blank w
        \/ w' = w
        \/ (passes_guards initialPrompt w
            /\ inFlightRef w' = false
            /\ loading w' = false
            /\ ((exists b,
                    try_verdict env = Normal b
                    /\ result w' = keep_if_same (parsed w b) (result w)
                    /\ lastPromptRef w' = Some currentPrompt
                    /\ heap_next w' = S (heap_next w))
                \/ (exists x,
                       try_verdict env = Throw x
                       /\ looks_like_network_error (errorMsg_of x) = true
                       /\ result w' = keep_if_same MOCK_FONT_SUGGESTION (result w)
                       /\ lastPromptRef w' = Some currentPrompt
                       /\ heap_next w' = heap_next w
                       /\ error w' = Some mock_notice)
                \/ (exists x,
                       try_verdict env = Throw x
                       /\ looks_like_network_error (errorMsg_of x) = false
                       /\ result w' = result w
                       /\ lastPromptRef w' = lastPromptRef w
                       /\ heap_next w' = heap_next w
                       /\ error w'
                          = Some ("Server Error: " ++ errorMsg_of x ++ ".")%string)))).
Proof.
  intros currentPrompt.
  destruct (guards_cases initialPrompt w) as [Hg | [Hg | [Hp _]]].
  - eexists _, _. split; [exact (handleSubmit_stops env e initialPrompt w _ Hg)|]. auto.
  - eexists _, _. split; [exact (handleSubmit_stops env e initialPrompt w _ Hg)|]. auto.
  - destruct (try_verdict env) as [b | x | ] eqn:Hv.
    + destruct (request_succeeds env currentPrompt w b Hv)
        as (w' & fx & Hr & _ & H1 & H2 & H3 & H4 & H5).
      eexists _, _.
      split; [exact (handleSubmit_passes env e initialPrompt w w' _ fx Hp Hr)|].
      right; right. split; [exact Hp|]. split; [exact H3|]. split; [exact H2|].
      left. exists b. auto.
    + destruct (looks_like_network_error (errorMsg_of x)) eqn:Hnet.
      * destruct (request_falls_back env currentPrompt w x Hv Hnet)
          as (w' & fx & Hr & _ & H1 & H2 & H3 & H4 & H5 & H6).
        eexists _, _.
        split; [exact (handleSubmit_passes env e initialPrompt w w' _ fx Hp Hr)|].
        right; right. split; [exact Hp|]. split; [exact H3|]. split; [exact H2|].
        right; left. exists x. auto 10.
      * destruct (request_reports env currentPrompt w x Hv Hnet)
          as (w' & fx & Hr & _ & H1 & H2 & H3 & H4 & H5 & H6).
        eexists _, _.
        split; [exact (handleSubmit_passes env e initialPrompt w w' _ fx Hp Hr)|].
        right; right. split; [exact Hp|]. split; [exact H3|]. split; [exact H2|].
        right; right. exists x. auto 10.
    + destruct (try_verdict_not_overlap env Hv).
Qed.

(** Every call completes normally, whether it was let through or not:
    no run ends in [Overlap] or with an uncaught throw. *)
Lemma handleSubmit_completes (env : Env) (e : bool) (initialPrompt : option string) (w : World) :
  outcome (handleSubmit env e initialPrompt w) = Normal tt.
Proof.
  destruct (handleSubmit_cases env e initialPrompt w) as (w' & fx & Hrun & _).
  rewrite Hrun. reflexivity.
Qed.

(** A submission handled during a suspension is handled by
    [handleSubmit] itself: with the guard set, the two agree. *)
Lemma dispatch_is_handleSubmit
    (env : Env) (e : bool) (initialPrompt : option string) (w : World) :
  inFlightRef w = true ->
  dispatch (Submitted e initialPrompt) w = handleSubmit env e initialPrompt w.
Proof.
  intros Hb.
  assert (Hg : exists w', guards initialPrompt w = mkRun (Normal None) w' []).
  { destruct (String.eqb_spec (currentPrompt_of initialPrompt (prompt w)) "") as [E | E].
    - eexists. apply guards_blank, E.
    - eexists. apply guards_busy; assumption. }
  destruct Hg as (w' & Hg).
  rewrite (handleSubmit_stops env e initialPrompt w w' Hg).
  unfold dispatch.
  rewrite <- (app_nil_r (default_prevented e)).
  eapply bind_normal; [apply preventDefault_run|].
  change (@nil Effect) with (@nil Effect ++ @nil Effect).
  eapply bind_normal; [exact Hg | reflexivity].
Qed.

(** ** Invariants of the reachable states *)

Lemma dedup_ok_initial : dedup_ok initial.
Proof. discriminate. Qed.

(** Dedup Memory is only ever given a title that passed the blank check. *)
Lemma handleSubmit_keeps_dedup_ok
    (env : Env) (e : bool) (initialPrompt : option string) (w : World) :
  dedup_ok w -> dedup_ok (final (handleSubmit env e initialPrompt w)).
Proof.
  intros Hok.
  destruct (handleSubmit_cases env e initialPrompt w) as (w' & fx & Hrun & Hcases).
  rewrite Hrun. cbn [final].
  destruct Hcases as [-> | [-> | ((Hne & _) & _ & _ & Hreq)]];
    [exact Hok | exact Hok |].
  unfold dedup_ok.
  destruct Hreq as [(b & _ & _ & Hl & _) | [(x & _ & _ & _ & Hl & _)
                                          | (x & _ & _ & _ & Hl & _)]];
    rewrite Hl; [congruence | congruence | exact Hok].
Qed.

Lemma keep_if_same_cases (data : SuggestionObj) (prev : option SuggestionObj) :
  keep_if_same data prev = Some data
  \/ (exists p, prev = Some p /\ keep_if_same data prev = Some p).
Proof.
  unfold keep_if_same. destruct prev as [p|]; [|now left].
  destruct (same_fields (fields p) (fields data)); [right; eauto | now left].
Qed.

Lemma heap_ok_initial : heap_ok initial.
Proof. split; [auto | exact I]. Qed.

Lemma handleSubmit_keeps_heap_ok
    (env : Env) (e : bool) (initialPrompt : option string) (w : World) :
  heap_ok w -> heap_ok (final (handleSubmit env e initialPrompt w)).
Proof.
  intros (Hpos & Hres).
  destruct (handleSubmit_cases env e initialPrompt w) as (w' & fx & Hrun & Hcases).
  rewrite Hrun. cbn [final].
  destruct Hcases as [-> | [-> | (_ & _ & _ & Hreq)]].
  - split; assumption.
  - split; assumption.
  - destruct Hreq as [(b & _ & H1 & _ & H5) | [(x & _ & _ & H1 & _ & H5 & _)
                                             | (x & _ & _ & H1 & _ & H5 & _)]];
      unfold heap_ok; rewrite H1, H5.
    + split; [lia|].
      destruct (keep_if_same_cases (parsed w b) (result w)) as [-> | (p & Hp & ->)].
      * cbn. lia.
      * rewrite Hp in Hres. lia.
    + split; [exact Hpos|].
      destruct (keep_if_same_cases MOCK_FONT_SUGGESTION (result w)) as [-> | (p & Hp & ->)].
      * exact Hpos.
      * rewrite Hp in Hres. exact Hres.
    + split; assumption.
Qed.

(** Between two events the component is idle, Dedup Memory holds no
    blank title, and every stored object has been allocated. *)
Lemma reachable_invariant (w : World) :
  reachable w ->
  inFlightRef w = false /\ loading w = false /\ dedup_ok w /\ heap_ok w.
Proof.
  induction 1 as [ | v w _ (I1 & I2 & I3 & I4)
                   | env e initialPrompt w _ (I1 & I2 & I3 & I4)].
  - split; [reflexivity|]. split; [reflexivity|].
    split; [apply dedup_ok_initial | apply heap_ok_initial].
  - cbn. auto.
  - pose proof (handleSubmit_keeps_dedup_ok env e initialPrompt w I3) as J3.
    pose proof (handleSubmit_keeps_heap_ok env e initialPrompt w I4) as J4.
    destruct (handleSubmit_cases env e initialPrompt w) as (w' & fx & Hrun & Hcases).
    rewrite Hrun in *. cbn [final] in *.
    destruct Hcases as [-> | [-> | (_ & H1 & H2 & _)]]; auto.
Qed.

(** ** Bounds on the network traffic *)

Lemma network_calls_timeline (fxs : list Effect) :
  network_calls (timeline fxs) = network_calls fxs.
Proof.
  unfold network_calls, timeline. induction fxs as [|fx rest IH]; simpl.
  - reflexivity.
  - destruct fx; simpl; try rewrite IH; reflexivity.
Qed.

Lemma loop_schedule_calls (net : nat -> FetchOutcome) (currentPrompt : string) (fuel : nat) :
  forall i, network_calls (loop_schedule net currentPrompt fuel i) <= fuel.
Proof.
  unfold network_calls.
  induction fuel as [|fuel IH]; intros i; cbn [loop_schedule].
  - apply Nat.le_refl.
  - cbn [filter is_fetch length]. specialize (IH (S i)).
    destruct (net i) as [r | x].
    + destruct (ok r); [cbn [filter length]; lia|].
      destruct (retryable r); [|cbn [filter length]; lia].
      cbn [filter is_fetch]. lia.
    + destruct (i =? maxRetries - 1)%nat; [cbn [filter length]; lia|].
      cbn [filter is_fetch]. lia.
Qed.

(** One call of [handleSubmit] reaches the network at most [maxRetries]
    times, however many submissions arrive while it is suspended. *)
Lemma at_most_maxRetries_calls
    (env : Env) (e : bool) (initialPrompt : option string) (w : World) :
  network_calls (effects (handleSubmit env e initialPrompt w)) <= maxRetries.
Proof.
  destruct (guards_cases initialPrompt w) as [Hg | [Hg | [Hp _]]].
  - rewrite (handleSubmit_stops env e initialPrompt w _ Hg). cbn [effects].
    rewrite (proj1 (stopped_call_is_quiet e)). lia.
  - rewrite (handleSubmit_stops env e initialPrompt w _ Hg). cbn [effects].
    rewrite (proj1 (stopped_call_is_quiet e)). lia.
  - set (cp := currentPrompt_of initialPrompt (prompt w)).
    pose proof (loop_schedule_calls (fetch_result env) cp maxRetries 0) as Hle.
    assert (Htl : exists w' fx,
               request env cp w = mkRun (Normal tt) w' fx
               /\ network_calls (timeline fx)
                  = network_calls (loop_schedule (fetch_result env) cp maxRetries 0)).
    { destruct (try_verdict env) as [b | x | ] eqn:Hv.
      - destruct (request_succeeds env cp w b Hv) as (w' & fx & Hr & Ht & _).
        exists w', fx. rewrite Ht. auto.
      - destruct (looks_like_network_error (errorMsg_of x)) eqn:Hnet.
        + destruct (request_falls_back env cp w x Hv Hnet) as (w' & fx & Hr & Ht & _).
          exists w', fx. rewrite Ht. split; [exact Hr|].
          unfold network_calls. rewrite filter_app, length_app. cbn. lia.
        + destruct (request_reports env cp w x Hv Hnet) as (w' & fx & Hr & Ht & _).
          exists w', fx. rewrite Ht. auto.
      - destruct (try_verdict_not_overlap env Hv). }
    destruct Htl as (w' & fx & Hr & Hn).
    rewrite (handleSubmit_passes env e initialPrompt w w' _ fx Hp Hr). cbn [effects].
    rewrite <- network_calls_timeline, timeline_default_prevented, Hn. exact Hle.
Qed.

(** ** C1: fallback on a network failure *)

Lemma keep_if_same_shows (data : SuggestionObj) (prev : option SuggestionObj) :
  exists shown, keep_if_same data prev = Some shown /\ fields shown = fields data.
Proof.
  unfold keep_if_same, same_fields. destruct prev as [p|]; [|now exists data].
  destruct (String.eqb_spec (font_name (fields p)) (font_name (fields data))) as [Hf|_];
    [|now exists data].
  destruct (String.eqb_spec (reason (fields p)) (reason (fields data))) as [Hr|_];
    [|now exists data].
  exists p. split; [reflexivity|].
  destruct (fields p), (fields data). simpl in *. congruence.
Qed.

Lemma retry_verdict_thrown (env : Env) (x : Thrown) :
  retry_verdict env = Throw x -> try_verdict env = Throw x.
Proof. intros H. unfold try_verdict. rewrite H. reflexivity. Qed.

(** A call about the recorded title, made once the request is over. *)
Lemma recorded_call_is_skipped
    (env : Env) (e : bool) (initialPrompt : option string) (w : World) :
  currentPrompt_of initialPrompt (prompt w) <> "" ->
  inFlightRef w = false ->
  lastPromptRef w = Some (currentPrompt_of initialPrompt (prompt w)) ->
  handleSubmit env e initialPrompt w = mkRun (Normal tt) w (default_prevented e).
Proof.
  intros Hne Hb Hl. apply handleSubmit_stops, guards_same; assumption.
Qed.

(** The loop throws exactly when the last attempt is reached and
    its fetch rejects; the thrown value is that rejection. *)
Lemma retry_verdict_thrown_is_last_rejection (env : Env) (x : Thrown) :
  retry_verdict env = Throw x -> fetch_result env (maxRetries - 1) = Rejected x.
Proof.
  unfold retry_verdict, maxRetries. cbn [loop_exit Nat.sub Nat.eqb].
  destruct (fetch_result env 0) as [r0 | x0];
    [destruct (ok r0); [discriminate|]; destruct (retryable r0); [|discriminate] |];
    (destruct (fetch_result env 1) as [r1 | x1];
     [destruct (ok r1); [discriminate|]; destruct (retryable r1); [|discriminate] |]);
    (destruct (fetch_result env 2) as [r2 | x2];
     [destruct (ok r2); [discriminate|]; destruct (retryable r2); discriminate |]);
    intros H; inversion H; reflexivity.
Qed.

(** The server cannot be reached at all: three attempts, 500ms and
    1000ms apart, and the third rejection leaves the loop. *)
Lemma network_down (env : Env) (currentPrompt : string) (x0 x1 x2 : Thrown) :
  fetch_result env 0 = Rejected x0 ->
  fetch_result env 1 = Rejected x1 ->
  fetch_result env 2 = Rejected x2 ->
  retry_verdict env = Throw x2
  /\ loop_schedule (fetch_result env) currentPrompt maxRetries 0
     = [Fetch API_URL currentPrompt; SetTimeout 500;
        Fetch API_URL currentPrompt; SetTimeout 1000;
        Fetch API_URL currentPrompt].
Proof.
  intros H0 H1 H2. unfold retry_verdict, maxRetries.
  cbn [loop_exit loop_schedule Nat.sub Nat.eqb]. rewrite H0, H1, H2.
  split; reflexivity.
Qed.

(** C1.  When the fetch fails at the connection level for good (the
    retry loop throws the rejection) and the message of the error
    contains "Failed to fetch" or "NetworkError", the call waits the
    fixed 500ms after the loop, then shows the fallback suggestion
    (font "Press Start 2P"), sets [error] to the advisory text, which
    names the endpoint and the mock font, and records the trimmed title;
    a later call with the same title issues no network call. *)
Theorem C1_network_failure_falls_back
    (env : Env) (e : bool) (initialPrompt : option string) (w : World) (x : Thrown) :
  passes_guards initialPrompt w ->
  retry_verdict env = Throw x ->
  looks_like_network_error (errorMsg_of x) = true ->
  let currentPrompt := currentPrompt_of initialPrompt (prompt w) in
  let r := handleSubmit env e initialPrompt w in
  outcome r = Normal tt
  /\ timeline (effects r)
     = loop_schedule (fetch_result env) currentPrompt maxRetries 0 ++ [SetTimeout 500]
  /\ (exists shown,
         result (final r) = Some shown
         /\ fields shown = fields MOCK_FONT_SUGGESTION
         /\ font_name (fields shown) = "Press Start 2P")
  /\ error (final r) = Some mock_notice
  /\ includes mock_notice API_URL = true
  /\ includes mock_notice "Press Start 2P" = true
  /\ lastPromptRef (final r) = Some currentPrompt
  /\ (forall env' e' initialPrompt' w',
         drift (final r) w' ->
         currentPrompt_of initialPrompt' (prompt w') = currentPrompt ->
         network_calls (effects (handleSubmit env' e' initialPrompt' w')) = 0
         /\ final (handleSubmit env' e' initialPrompt' w') = w').
Proof.
  intros Hp Hv Hnet currentPrompt r. subst r.
  destruct (request_falls_back env currentPrompt w x (retry_verdict_thrown env x Hv) Hnet)
    as (w1 & fx & Hr & Ht & H1 & H2 & H3 & H4 & H5 & H6).
  rewrite (handleSubmit_passes env e initialPrompt w w1 _ fx Hp Hr).
  cbn [outcome final effects].
  split; [reflexivity|].
  split; [rewrite timeline_default_prevented; exact Ht|].
  split.
  { destruct (keep_if_same_shows MOCK_FONT_SUGGESTION (result w)) as (shown & Hs & Hf).
    exists shown. rewrite H1. split; [exact Hs|]. split; [exact Hf|].
    rewrite Hf. reflexivity. }
  split; [exact H6|].
  split; [vm_compute; reflexivity|].
  split; [vm_compute; reflexivity|].
  split; [exact H4|].
  intros env' e' initialPrompt' w' Hd Hsame.
  destruct Hd as (_ & _ & D3 & D4 & _).
  assert (Hne : currentPrompt_of initialPrompt' (prompt w') <> "")
    by (rewrite Hsame; exact (proj1 Hp)).
  rewrite (recorded_call_is_skipped env' e' initialPrompt' w' Hne).
  - cbn [effects final]. split; [apply stopped_call_is_quiet | reflexivity].
  - rewrite D3. exact H3.
  - rewrite D4, H4, Hsame. reflexivity.
Qed.

Lemma C1_network_failure_witness :
  passes_guards (Some " Moby Dick ") initial
  /\ retry_verdict offline = Throw (ErrorObject "Failed to fetch")
  /\ looks_like_network_error (errorMsg_of (ErrorObject "Failed to fetch")) = true
  /\ error (final (handleSubmit offline true (Some " Moby Dick ") initial))
     = Some mock_notice
  /\ lastPromptRef (final (handleSubmit offline true (Some " Moby Dick ") initial))
     = Some "Moby Dick".
Proof.
  assert (Hp : passes_guards (Some " Moby Dick ") initial).
  { split; [vm_compute; discriminate | split; [reflexivity | discriminate]]. }
  split; [exact Hp|]. split; [reflexivity|]. split; [reflexivity|].
  destruct (C1_network_failure_falls_back offline true (Some " Moby Dick ") initial
              (ErrorObject "Failed to fetch") Hp eq_refl eq_refl)
    as (_ & _ & _ & He & _ & _ & Hl & _).
  split; [exact He | exact Hl].
Defined.

(** ** C2: validation *)

(** C2.  A title that is empty or consists of white space only (so that
    nothing is left of it after trimming) makes [handleSubmit] return
    at once: no network call and no timer, the [error] field holds
    the validation message, and nothing else changes. *)
Theorem C2_blank_title_is_rejected
    (env : Env) (e : bool) (initialPrompt : option string) (w : World) :
  blank (title_of initialPrompt (prompt w)) = true ->
  let r := handleSubmit env e initialPrompt w in
  outcome r = Normal tt
  /\ network_calls (effects r) = 0
  /\ timeline (effects r) = []
  /\ error (final r) = Some "Please enter a title to analyze."
  /\ final r = rejected_blank w.
Proof.
  intros Hblank r. subst r.
  assert (E : currentPrompt_of initialPrompt (prompt w) = "")
    by (apply trim_blank, Hblank).
  rewrite (handleSubmit_stops env e initialPrompt w _ (guards_blank _ _ E)).
  cbn [outcome final effects].
  destruct (stopped_call_is_quiet e) as (Hn & Ht).
  split; [reflexivity|]. split; [exact Hn|]. split; [exact Ht|].
  split; reflexivity.
Qed.

Lemma C2_blank_title_witness :
  blank (title_of (Some "   ") (prompt initial)) = true
  /\ error (final (handleSubmit offline true (Some "   ") initial))
     = Some "Please enter a title to analyze."
  /\ network_calls (effects (handleSubmit offline true (Some "   ") initial)) = 0.
Proof.
  split; [reflexivity|].
  destruct (C2_blank_title_is_rejected offline true (Some "   ") initial eq_refl)
    as (_ & Hn & _ & He & _).
  split; [exact He | exact Hn].
Defined.

(** ** C3: the in-flight guard *)

(** C3, as the code has it.  While the guard is set, a call whose title
    is not blank is a no-op: the state is left exactly as it was and no
    network call or timer is started.  (A blank title is answered with
    the validation message even then: the check for it comes first.) *)
Theorem C3_busy_submit_is_noop
    (env : Env) (e : bool) (initialPrompt : option string) (w : World) :
  inFlightRef w = true ->
  currentPrompt_of initialPrompt (prompt w) <> "" ->
  let r := handleSubmit env e initialPrompt w in
  outcome r = Normal tt
  /\ final r = w
  /\ displayed (final r) = displayed w
  /\ network_calls (effects r) = 0
  /\ timeline (effects r) = [].
Proof.
  intros Hb Hne r. subst r.
  rewrite (handleSubmit_stops env e initialPrompt w _ (guards_busy _ _ Hne Hb)).
  cbn [outcome final effects].
  destruct (stopped_call_is_quiet e) as (Hn & Ht).
  split; [reflexivity|]. split; [reflexivity|]. split; [reflexivity|].
  split; [exact Hn | exact Ht].
Qed.

Lemma C3_busy_submit_witness :
  inFlightRef (begun initial) = true
  /\ currentPrompt_of (Some "Moby Dick") (prompt (begun initial)) <> ""
  /\ final (handleSubmit offline true (Some "Moby Dick") (begun initial)) = begun initial
  /\ network_calls (effects (handleSubmit offline true (Some "Moby Dick") (begun initial))) = 0.
Proof.
  assert (Hne : currentPrompt_of (Some "Moby Dick") (prompt (begun initial)) <> "")
    by (vm_compute; discriminate).
  split; [reflexivity|]. split; [exact Hne|].
  destruct (C3_busy_submit_is_noop offline true (Some "Moby Dick") (begun initial)
              eq_refl Hne) as (_ & Hf & _ & Hn & _).
  split; [exact Hf | exact Hn].
Defined.

(** C3, as stated, fails: with the guard set and no error displayed, a
    call with a blank title puts the validation message in [error]. *)
Lemma C3_blank_title_while_busy :
  inFlightRef (begun initial) = true
  /\ error (begun initial) = None
  /\ error (final (handleSubmit offline false (Some "") (begun initial)))
     = Some "Please enter a title to analyze."
  /\ displayed (final (handleSubmit offline false (Some "") (begun initial)))
     <> displayed (begun initial).
Proof.
  rewrite (handleSubmit_stops offline false (Some "") (begun initial) _
             (guards_blank (Some "") (begun initial) eq_refl)).
  cbn [final].
  split; [reflexivity|]. split; [reflexivity|]. split; [reflexivity|].
  discriminate.
Qed.

(** ** C4: Dedup Memory *)

(** C4.  When the trimmed title is the one recorded in Dedup Memory, the
    call is a no-op: the state is left exactly as it was and no network
    call or timer is started.  Dedup Memory only ever records titles that
    passed the blank check ([dedup_ok], which holds initially and is kept
    by every call: [handleSubmit_keeps_dedup_ok]). *)
Theorem C4_recorded_title_is_skipped
    (env : Env) (e : bool) (initialPrompt : option string) (w : World) :
  dedup_ok w ->
  lastPromptRef w = Some (currentPrompt_of initialPrompt (prompt w)) ->
  let r := handleSubmit env e initialPrompt w in
  outcome r = Normal tt
  /\ final r = w
  /\ displayed (final r) = displayed w
  /\ network_calls (effects r) = 0
  /\ timeline (effects r) = [].
Proof.
  intros Hok Hl r. subst r.
  assert (Hne : currentPrompt_of initialPrompt (prompt w) <> "").
  { intros E. apply Hok. rewrite Hl, E. reflexivity. }
  assert (Hg : guards initialPrompt w = mkRun (Normal None) w []).
  { destruct (inFlightRef w) eqn:Hb.
    - apply guards_busy; assumption.
    - apply guards_same; assumption. }
  rewrite (handleSubmit_stops env e initialPrompt w _ Hg).
  cbn [outcome final effects].
  destruct (stopped_call_is_quiet e) as (Hn & Ht).
  split; [reflexivity|]. split; [reflexivity|]. split; [reflexivity|].
  split; [exact Hn | exact Ht].
Qed.

Lemma C4_recorded_title_witness :
  let w := mkWorld "Moby Dick" (Some MOCK_FONT_SUGGESTION) false (Some mock_notice)
             false (Some "Moby Dick") 1 in
  dedup_ok w
  /\ lastPromptRef w = Some (currentPrompt_of (Some "  Moby Dick ") (prompt w))
  /\ final (handleSubmit offline true (Some "  Moby Dick ") w) = w
  /\ network_calls (effects (handleSubmit offline true (Some "  Moby Dick ") w)) = 0.
Proof.
  intros w.
  assert (Hok : dedup_ok w) by discriminate.
  assert (Hl : lastPromptRef w = Some (currentPrompt_of (Some "  Moby Dick ") (prompt w)))
    by reflexivity.
  split; [exact Hok|]. split; [exact Hl|].
  destruct (C4_recorded_title_is_skipped offline true (Some "  Moby Dick ") w Hok Hl)
    as (_ & Hf & _ & Hn & _).
  split; [exact Hf | exact Hn].
Defined.

(** ** C5: retry and back-off *)

Lemma backoff_values : backoff 0 = 500%N /\ backoff 1 = 1000%N /\ backoff 2 = 2000%N.
Proof. repeat split. Qed.

(** After an attempt that is answered with 404 or a status of 500 and
    above, the loop waits [backoff i], on every attempt, the last one
    included. *)
Lemma retryable_status_waits
    (net : nat -> FetchOutcome) (currentPrompt : string) (fuel i : nat) (r : Response) :
  net i = Resolved r ->
  ok r = false ->
  retryable r = true ->
  loop_schedule net currentPrompt (S fuel) i
  = Fetch API_URL currentPrompt :: SetTimeout (backoff i)
      :: loop_schedule net currentPrompt fuel (S i).
Proof. intros Hn Hok Hre. simpl. rewrite Hn, Hok, Hre. reflexivity. Qed.

(** After a rejected fetch the loop waits too, except on the last attempt. *)
Lemma rejected_fetch_waits
    (net : nat -> FetchOutcome) (currentPrompt : string) (fuel i : nat) (x : Thrown) :
  net i = Rejected x ->
  loop_schedule net currentPrompt (S fuel) i
  = Fetch API_URL currentPrompt
      :: (if (i =? maxRetries - 1)%nat then []
          else SetTimeout (backoff i) :: loop_schedule net currentPrompt fuel (S i)).
Proof. intros Hn. simpl. rewrite Hn. reflexivity. Qed.

(** Two retryable failures, then a success: three attempts, with 500ms
    and 1000ms between them, and the suggestion is stored. *)
Lemma two_failures_then_success
    (env : Env) (e : bool) (initialPrompt : option string) (w : World)
    (r0 r1 r2 : Response) (b : Body) :
  passes_guards initialPrompt w ->
  fetch_result env 0 = Resolved r0 -> ok r0 = false -> retryable r0 = true ->
  fetch_result env 1 = Resolved r1 -> ok r1 = false -> retryable r1 = true ->
  fetch_result env 2 = Resolved r2 -> ok r2 = true -> json_result r2 = JsonResolves b ->
  let currentPrompt := currentPrompt_of initialPrompt (prompt w) in
  let r := handleSubmit env e initialPrompt w in
  outcome r = Normal tt
  /\ timeline (effects r)
     = [Fetch API_URL currentPrompt; SetTimeout 500;
        Fetch API_URL currentPrompt; SetTimeout 1000;
        Fetch API_URL currentPrompt]
  /\ network_calls (effects r) = 3
  /\ result (final r) = keep_if_same (parsed w b) (result w)
  /\ lastPromptRef (final r) = Some currentPrompt.
Proof.
  intros Hp F0 K0 R0 F1 K1 R1 F2 K2 J2 currentPrompt r. subst r.
  assert (Hv : try_verdict env = Normal b).
  { unfold try_verdict, retry_verdict. simpl.
    rewrite F0, K0, R0, F1, K1, R1, F2, K2, K2, J2. reflexivity. }
  assert (Hs : loop_schedule (fetch_result env) currentPrompt maxRetries 0
               = [Fetch API_URL currentPrompt; SetTimeout 500;
                  Fetch API_URL currentPrompt; SetTimeout 1000;
                  Fetch API_URL currentPrompt]).
  { simpl. rewrite F0, K0, R0, F1, K1, R1, F2, K2. reflexivity. }
  destruct (request_succeeds env currentPrompt w b Hv)
    as (w1 & fx & Hr & Ht & H1 & _ & _ & H4 & _).
  rewrite (handleSubmit_passes env e initialPrompt w w1 _ fx Hp Hr).
  cbn [outcome final effects].
  assert (Htl : timeline (default_prevented e ++ fx)
                = [Fetch API_URL currentPrompt; SetTimeout 500;
                   Fetch API_URL currentPrompt; SetTimeout 1000;
                   Fetch API_URL currentPrompt])
    by (rewrite timeline_default_prevented, Ht; exact Hs).
  split; [reflexivity|]. split; [exact Htl|].
  split; [rewrite <- network_calls_timeline, Htl; reflexivity|].
  split; [exact H1 | exact H4].
Qed.

(** C5, where the code departs from it.  Three attempts that are all
    answered with 503: the loop waits 500ms and 1000ms between the
    attempts and then another 2000ms after the third and last one,
    before the failure is reported. *)
Theorem C5_last_attempt_still_waits :
  let r := handleSubmit (always (error_response 503 None)) false
             (Some "Moby Dick") initial in
  timeline (effects r)
  = [Fetch API_URL "Moby Dick"; SetTimeout 500;
     Fetch API_URL "Moby Dick"; SetTimeout 1000;
     Fetch API_URL "Moby Dick"; SetTimeout 2000]
  /\ error (final r) = Some "Server Error: HTTP error! status: 503.".
Proof. vm_compute. split; reflexivity. Qed.

(** ** C6: failures that are not retried *)

Lemma single_attempt (env : Env) (currentPrompt : string) (r : Response) :
  fetch_result env 0 = Resolved r ->
  ok r = false ->
  retryable r = false ->
  retry_verdict env = Normal (Some r)
  /\ loop_schedule (fetch_result env) currentPrompt maxRetries 0
     = [Fetch API_URL currentPrompt].
Proof.
  intros Hf Hok Hre. unfold retry_verdict. simpl. rewrite Hf, Hok, Hre.
  split; reflexivity.
Qed.

Lemma http_error_thrown (env : Env) (r : Response) :
  retry_verdict env = Normal (Some r) ->
  ok r = false ->
  try_verdict env = Throw (ErrorObject (failure_text (errData_of r) (Some r))).
Proof. intros Hv Hok. unfold try_verdict. rewrite Hv, Hok. reflexivity. Qed.

Lemma failure_text_details (d : string) (response : option Response) :
  d <> "" -> failure_text (Some d) response = d.
Proof.
  intros Hne. unfold failure_text. apply truthy_nonempty in Hne. rewrite Hne. reflexivity.
Qed.

(** C6, as the code has it.  A first response with a failure status
    that is neither 404 nor 500 and above (400, say) ends the loop: one
    network call, no back-off.  When its body carries a [details] text
    that is not empty and contains neither "Failed to fetch" nor
    "NetworkError", the [error] field is "Server Error: <details>." with
    the text verbatim, and no timer runs at all. *)
Theorem C6_client_error_is_not_retried
    (env : Env) (e : bool) (initialPrompt : option string) (w : World) (r : Response) :
  passes_guards initialPrompt w ->
  fetch_result env 0 = Resolved r ->
  ok r = false ->
  retryable r = false ->
  let currentPrompt := currentPrompt_of initialPrompt (prompt w) in
  let run := handleSubmit env e initialPrompt w in
  outcome run = Normal tt
  /\ network_calls (effects run) = 1
  /\ timeline (effects run)
     = Fetch API_URL currentPrompt
         :: (if looks_like_network_error (failure_text (errData_of r) (Some r))
             then [SetTimeout 500] else [])
  /\ (forall d,
         errData_of r = Some d ->
         d <> "" ->
         looks_like_network_error d = false ->
         error (final run) = Some ("Server Error: " ++ d ++ ".")%string
         /\ timeline (effects run) = [Fetch API_URL currentPrompt]).
Proof.
  intros Hp Hf Hok Hre currentPrompt run. subst run.
  destruct (single_attempt env currentPrompt r Hf Hok Hre) as (Hv & Hs).
  pose proof (http_error_thrown env r Hv Hok) as Ht.
  destruct (looks_like_network_error (failure_text (errData_of r) (Some r))) eqn:Hnet.
  - destruct (request_falls_back env currentPrompt w _ Ht Hnet)
      as (w1 & fx & Hr & Htl & _).
    rewrite (handleSubmit_passes env e initialPrompt w w1 _ fx Hp Hr).
    cbn [outcome final effects]. rewrite Hs in Htl.
    assert (Htl' : timeline (default_prevented e ++ fx)
                   = [Fetch API_URL currentPrompt; SetTimeout 500])
      by (rewrite timeline_default_prevented; exact Htl).
    split; [reflexivity|].
    split; [rewrite <- network_calls_timeline, Htl'; reflexivity|].
    split; [exact Htl'|].
    intros d Hd Hne Hquiet. rewrite Hd, (failure_text_details d _ Hne) in Hnet.
    cbn [errorMsg_of] in Hnet. congruence.
  - destruct (request_reports env currentPrompt w _ Ht Hnet)
      as (w1 & fx & Hr & Htl & _ & _ & _ & _ & _ & He).
    rewrite (handleSubmit_passes env e initialPrompt w w1 _ fx Hp Hr).
    cbn [outcome final effects]. rewrite Hs in Htl.
    assert (Htl' : timeline (default_prevented e ++ fx) = [Fetch API_URL currentPrompt])
      by (rewrite timeline_default_prevented; exact Htl).
    split; [reflexivity|].
    split; [rewrite <- network_calls_timeline, Htl'; reflexivity|].
    split; [exact Htl'|].
    intros d Hd Hne Hquiet. split; [|exact Htl'].
    rewrite He. cbn [errorMsg_of]. rewrite Hd, (failure_text_details d _ Hne).
    reflexivity.
Qed.

Lemma C6_client_error_witness :
  let env := always (error_response 400 (Some "Missing prompt")) in
  passes_guards (Some "Moby Dick") initial
  /\ fetch_result env 0 = Resolved (error_response 400 (Some "Missing prompt"))
  /\ ok (error_response 400 (Some "Missing prompt")) = false
  /\ retryable (error_response 400 (Some "Missing prompt")) = false
  /\ network_calls (effects (handleSubmit env true (Some "Moby Dick") initial)) = 1
  /\ error (final (handleSubmit env true (Some "Moby Dick") initial))
     = Some "Server Error: Missing prompt.".
Proof.
  intros env.
  assert (Hp : passes_guards (Some "Moby Dick") initial).
  { split; [vm_compute; discriminate | split; [reflexivity | discriminate]]. }
  split; [exact Hp|]. split; [reflexivity|]. split; [reflexivity|]. split; [reflexivity|].
  destruct (C6_client_error_is_not_retried env true (Some "Moby Dick") initial
              (error_response 400 (Some "Missing prompt")) Hp eq_refl eq_refl eq_refl)
    as (_ & Hn & _ & Hd).
  split; [exact Hn|].
  assert (Hne : "Missing prompt" <> "") by discriminate.
  exact (proj1 (Hd "Missing prompt" eq_refl Hne eq_refl)).
Defined.

(** C6, as stated, fails: a 400 whose [details] reads "NetworkError" is
    taken for a network failure; the [error] field is the mock notice,
    in which the [details] text does not occur, and the fallback is shown. *)
Lemma C6_details_taken_for_network_failure :
  let r := error_response 400 (Some "NetworkError") in
  let run := handleSubmit (always r) false (Some "Moby Dick") initial in
  status r = 400%N
  /\ errData_of r = Some "NetworkError"
  /\ network_calls (effects run) = 1
  /\ error (final run) = Some mock_notice
  /\ error (final run) <> Some "Server Error: NetworkError."
  /\ includes mock_notice "NetworkError" = false.
Proof.
  vm_compute.
  split; [reflexivity|]. split; [reflexivity|]. split; [reflexivity|].
  split; [reflexivity|]. split; [discriminate | reflexivity].
Qed.

(** ** C7: failures that are reported *)

Lemma upstream_error_thrown (env : Env) (x : Thrown) :
  upstream_error env x -> try_verdict env = Throw x.
Proof.
  intros [r Hv Hok | r y Hv Hok Hj]; unfold try_verdict; rewrite Hv, Hok.
  - reflexivity.
  - rewrite Hj. reflexivity.
Qed.

(** Whatever the [try] block throws, if its message does not read like
    a network failure it is reported and nothing else changes. *)
Lemma failure_is_reported
    (env : Env) (e : bool) (initialPrompt : option string) (w : World) (x : Thrown) :
  passes_guards initialPrompt w ->
  try_verdict env = Throw x ->
  looks_like_network_error (errorMsg_of x) = false ->
  let r := handleSubmit env e initialPrompt w in
  outcome r = Normal tt
  /\ error (final r) = Some ("Server Error: " ++ errorMsg_of x ++ ".")%string
  /\ result (final r) = result w
  /\ lastPromptRef (final r) = lastPromptRef w.
Proof.
  intros Hp Hv Hnet r. subst r.
  destruct (request_reports env (currentPrompt_of initialPrompt (prompt w)) w x Hv Hnet)
    as (w1 & fx & Hr & _ & H1 & _ & _ & H4 & _ & He).
  rewrite (handleSubmit_passes env e initialPrompt w w1 _ fx Hp Hr).
  cbn [outcome final]. auto.
Qed.

(** C7, as the code has it.  When the call fails upstream (an error
    status, or a payload that does not parse) and the message of the
    failure contains neither "Failed to fetch" nor "NetworkError", the
    [error] field is "Server Error: <message>.", the displayed result is
    the one from before, and Dedup Memory is as before, so the same title
    passes the checks again. *)
Theorem C7_upstream_failure_is_reported
    (env : Env) (e : bool) (initialPrompt : option string) (w : World) (x : Thrown) :
  passes_guards initialPrompt w ->
  upstream_error env x ->
  looks_like_network_error (errorMsg_of x) = false ->
  let r := handleSubmit env e initialPrompt w in
  outcome r = Normal tt
  /\ error (final r) = Some ("Server Error: " ++ errorMsg_of x ++ ".")%string
  /\ result (final r) = result w
  /\ lastPromptRef (final r) = lastPromptRef w
  /\ (forall initialPrompt',
         currentPrompt_of initialPrompt' (prompt (final r))
         = currentPrompt_of initialPrompt (prompt w) ->
         passes_guards initialPrompt' (final r)).
Proof.
  intros Hp Hup Hnet r. subst r.
  pose proof (upstream_error_thrown env x Hup) as Hv.
  destruct (request_reports env (currentPrompt_of initialPrompt (prompt w)) w x Hv Hnet)
    as (w1 & fx & Hr & _ & H1 & _ & H3 & H4 & _ & He).
  rewrite (handleSubmit_passes env e initialPrompt w w1 _ fx Hp Hr).
  cbn [outcome final].
  split; [reflexivity|]. split; [exact He|]. split; [exact H1|]. split; [exact H4|].
  intros initialPrompt' Hsame. destruct Hp as (Hne & _ & Hl).
  unfold passes_guards. rewrite Hsame, H4. auto.
Qed.

Lemma C7_upstream_failure_witness :
  let env := always (mkResponse 200 (JsonRejects (ErrorObject "Unexpected token <"))) in
  let w := mkWorld "Moby Dick" (Some MOCK_FONT_SUGGESTION) false None false
             (Some "Dracula") 1 in
  passes_guards None w
  /\ upstream_error env (ErrorObject "Unexpected token <")
  /\ looks_like_network_error (errorMsg_of (ErrorObject "Unexpected token <")) = false
  /\ error (final (handleSubmit env true None w))
     = Some "Server Error: Unexpected token <."
  /\ result (final (handleSubmit env true None w)) = Some MOCK_FONT_SUGGESTION
  /\ lastPromptRef (final (handleSubmit env true None w)) = Some "Dracula".
Proof.
  intros env w.
  assert (Hp : passes_guards None w).
  { split; [vm_compute; discriminate | split; [reflexivity | vm_compute; discriminate]]. }
  assert (Hup : upstream_error env (ErrorObject "Unexpected token <")).
  { apply (unparsable_payload env
             (mkResponse 200 (JsonRejects (ErrorObject "Unexpected token <")))); reflexivity. }
  split; [exact Hp|]. split; [exact Hup|]. split; [reflexivity|].
  destruct (C7_upstream_failure_is_reported env true None w
              (ErrorObject "Unexpected token <") Hp Hup eq_refl)
    as (_ & He & Hr & Hl & _).
  split; [exact He|]. split; [exact Hr | exact Hl].
Defined.

(** C7, as stated, fails: the service answers 400 with [details]
    "NetworkError"; this is an upstream failure, yet the fallback is
    stored as the result and the title is recorded in Dedup Memory. *)
Lemma C7_upstream_failure_taken_for_network_failure :
  let env := always (error_response 400 (Some "NetworkError")) in
  let run := handleSubmit env false (Some "Moby Dick") initial in
  upstream_error env (ErrorObject "NetworkError")
  /\ result initial = None
  /\ result (final run) = Some MOCK_FONT_SUGGESTION
  /\ lastPromptRef initial = None
  /\ lastPromptRef (final run) = Some "Moby Dick"
  /\ error (final run) <> Some "Server Error: NetworkError.".
Proof.
  intros env run. split.
  - apply (http_error_response env (error_response 400 (Some "NetworkError")));
      reflexivity.
  - vm_compute. split; [reflexivity|]. split; [reflexivity|]. split; [reflexivity|].
    split; [reflexivity | discriminate].
Qed.

(** ** C8: no redundant update of the result *)

Lemma same_fields_refl (a : FontSuggestion) : same_fields a a = true.
Proof. unfold same_fields. rewrite !String.eqb_refl. reflexivity. Qed.

Lemma same_fields_eq (a b : FontSuggestion) : same_fields a b = true <-> a = b.
Proof.
  unfold same_fields. rewrite andb_true_iff, !String.eqb_eq.
  destruct a, b; simpl. split; [intros (-> & ->); reflexivity | intros H; now inversion H].
Qed.

(** C8.  A successful response replaces the stored result only when
    its [font_name] or [reason] differs from the stored one; otherwise
    the stored object stays, the same object with the same identity.
    So when two successful calls in a row, for two different titles,
    bring the same [font_name] and [reason], the result after the second
    call is the very object that was there after the first. *)
Theorem C8_same_payload_keeps_result
    (env1 env2 : Env) (e1 e2 : bool) (initialPrompt1 initialPrompt2 : option string)
    (w w' : World) (b1 b2 : Body) :
  passes_guards initialPrompt1 w ->
  try_verdict env1 = Normal b1 ->
  let r1 := handleSubmit env1 e1 initialPrompt1 w in
  drift (final r1) w' ->
  currentPrompt_of initialPrompt2 (prompt w') <> "" ->
  currentPrompt_of initialPrompt2 (prompt w')
  <> currentPrompt_of initialPrompt1 (prompt w) ->
  try_verdict env2 = Normal b2 ->
  suggestion_of b2 = suggestion_of b1 ->
  let r2 := handleSubmit env2 e2 initialPrompt2 w' in
  (* the update rule, at the first call *)
  (forall prev,
      result w = Some prev ->
      same_fields (fields prev) (suggestion_of b1) = true ->
      result (final r1) = Some prev)
  /\ (result w = None
      \/ (exists prev, result w = Some prev
                       /\ same_fields (fields prev) (suggestion_of b1) = false) ->
      result (final r1) = Some (parsed w b1))
  (* the second call went to the network and recorded its title *)
  /\ outcome r2 = Normal tt
  /\ 1 <= network_calls (effects r2)
  /\ lastPromptRef (final r2) = Some (currentPrompt_of initialPrompt2 (prompt w'))
  (* and left the stored object alone *)
  /\ result (final r2) = result (final r1).
Proof.
  intros Hp1 Hv1 r1 Hd Hne Hdiff Hv2 Hsame r2. subst r1 r2.
  destruct (request_succeeds env1 (currentPrompt_of initialPrompt1 (prompt w)) w b1 Hv1)
    as (w1 & fx1 & Hr1 & _ & A1 & _ & A3 & A4 & _).
  rewrite (handleSubmit_passes env1 e1 initialPrompt1 w w1 _ fx1 Hp1 Hr1) in *.
  cbn [outcome final effects] in *.
  destruct Hd as (D1 & _ & D3 & D4 & _).
  assert (Hp2 : passes_guards initialPrompt2 w').
  { split; [exact Hne|]. split; [congruence|]. rewrite D4, A4. congruence. }
  destruct (request_succeeds env2 (currentPrompt_of initialPrompt2 (prompt w')) w' b2 Hv2)
    as (w2 & fx2 & Hr2 & T2 & B1 & _ & _ & B4 & _).
  rewrite (handleSubmit_passes env2 e2 initialPrompt2 w' w2 _ fx2 Hp2 Hr2).
  cbn [outcome final effects].
  splits.
  - intros prev Hprev Hsf. rewrite A1, Hprev. cbn [keep_if_same parsed fields].
    rewrite Hsf. reflexivity.
  - intros [Hnone | (prev & Hprev & Hsf)]; rewrite A1.
    + rewrite Hnone. reflexivity.
    + rewrite Hprev. cbn [keep_if_same parsed fields]. rewrite Hsf. reflexivity.
  - reflexivity.
  - rewrite <- network_calls_timeline, timeline_default_prevented, T2.
    unfold maxRetries. cbn [loop_schedule network_calls timeline filter on_the_clock
                            is_fetch length]. lia.
  - exact B4.
  - rewrite B1, D1.
    destruct (keep_if_same_shows (parsed w b1) (result w)) as (shown & Hs & Hf).
    rewrite A1, Hs. cbn [keep_if_same parsed fields] in *.
    rewrite Hf, Hsame, same_fields_refl. reflexivity.
Qed.

Lemma C8_same_payload_witness :
  let env := always (suggestion_response "Inter" "Clean and neutral.") in
  let r1 := handleSubmit env true (Some "Moby Dick") initial in
  let r2 := handleSubmit env true (Some "Dracula") (final r1) in
  passes_guards (Some "Moby Dick") initial
  /\ try_verdict env = Normal (mkBody "Inter" "Clean and neutral." None)
  /\ drift (final r1) (final r1)
  /\ currentPrompt_of (Some "Dracula") (prompt (final r1)) <> ""
  /\ currentPrompt_of (Some "Dracula") (prompt (final r1))
     <> currentPrompt_of (Some "Moby Dick") (prompt initial)
  /\ result (final r2) = result (final r1)
  /\ lastPromptRef (final r2)
     = Some (currentPrompt_of (Some "Dracula") (prompt (final r1))).
Proof.
  intros env r1 r2.
  assert (Hp : passes_guards (Some "Moby Dick") initial).
  { split; [vm_compute; discriminate | split; [reflexivity | discriminate]]. }
  assert (Hne : currentPrompt_of (Some "Dracula") (prompt (final r1)) <> "")
    by (vm_compute; discriminate).
  assert (Hdiff : currentPrompt_of (Some "Dracula") (prompt (final r1))
                  <> currentPrompt_of (Some "Moby Dick") (prompt initial))
    by (vm_compute; discriminate).
  split; [exact Hp|]. split; [reflexivity|]. split; [apply drift_refl|].
  split; [exact Hne|]. split; [exact Hdiff|].
  destruct (C8_same_payload_keeps_result env env true true
              (Some "Moby Dick") (Some "Dracula") initial (final r1)
              (mkBody "Inter" "Clean and neutral." None)
              (mkBody "Inter" "Clean and neutral." None)
              Hp eq_refl (drift_refl _) Hne Hdiff eq_refl eq_refl)
    as (_ & _ & _ & _ & Hl & Hres).
  split; [exact Hres | exact Hl].
Defined.

(** The object parsed from a response is a new one: had line 111 stored
    it, the identity of the result would have changed. *)
Lemma parsed_is_fresh (w : World) (b : Body) :
  heap_ok w -> result w <> Some (parsed w b).
Proof.
  intros (_ & H) E. rewrite E in H. cbn in H. lia.
Qed.

(** ** C9: clean-up *)

(** C9.  A call that passes the three checks always completes, and when
    it does the guard and the loading flag are both off, whatever the
    network did (success, fallback or failure) and whatever arrived
    meanwhile; so the next submission is let through again, unless its
    title is blank or the recorded one. *)
Theorem C9_request_always_releases
    (env : Env) (e : bool) (initialPrompt : option string) (w : World) :
  passes_guards initialPrompt w ->
  let r := handleSubmit env e initialPrompt w in
  outcome r = Normal tt
  /\ inFlightRef (final r) = false
  /\ loading (final r) = false
  /\ (forall next,
         currentPrompt_of next (prompt (final r)) <> "" ->
         lastPromptRef (final r) <> Some (currentPrompt_of next (prompt (final r))) ->
         passes_guards next (final r)).
Proof.
  intros Hp r. subst r.
  destruct (request_releases env (currentPrompt_of initialPrompt (prompt w)) w)
    as (w' & fx & Hr & Hf & Hl).
  rewrite (handleSubmit_passes env e initialPrompt w w' _ fx Hp Hr).
  cbn [outcome final].
  split; [reflexivity|]. split; [exact Hf|]. split; [exact Hl|].
  intros next Hne Hnew. split; [exact Hne | split; [exact Hf | exact Hnew]].
Qed.

Lemma C9_request_releases_witness :
  passes_guards (Some "Moby Dick") initial
  /\ (let r := handleSubmit (always (error_response 503 None)) true
                 (Some "Moby Dick") initial in
      outcome r = Normal tt
      /\ inFlightRef (final r) = false
      /\ loading (final r) = false
      /\ (forall next,
             currentPrompt_of next (prompt (final r)) <> "" ->
             lastPromptRef (final r) <> Some (currentPrompt_of next (prompt (final r))) ->
             passes_guards next (final r))).
Proof.
  assert (Hp : passes_guards (Some "Moby Dick") initial).
  { split; [vm_compute; discriminate | split; [reflexivity | discriminate]]. }
  split; [exact Hp|].
  exact (C9_request_always_releases (always (error_response 503 None)) true
           (Some "Moby Dick") initial Hp).
Defined.

(** ** C10: the response after the loop *)

Lemma bind_outcome_normal {A B} (m : M A) (k : A -> M B) (w : World) (b : B) :
  outcome (bind m k w) = Normal b ->
  exists a, outcome (m w) = Normal a /\ outcome (k a (final (m w))) = Normal b.
Proof.
  unfold bind. destruct (m w) as [[a | x | ] w1 fx1]; cbn [outcome final].
  - destruct (k a w1) as [o w2 fx2] eqn:Hk. cbn [outcome]. intros ->.
    exists a. split; [reflexivity|]. rewrite Hk. reflexivity.
  - discriminate.
  - discriminate.
Qed.

Lemma try_catch_outcome_normal {A} (m : M A) (h : Thrown -> M A) (w : World) (a : A) :
  outcome (try_catch m h w) = Normal a ->
  outcome (m w) = Normal a
  \/ exists x, outcome (m w) = Throw x /\ outcome (h x (final (m w))) = Normal a.
Proof.
  unfold try_catch. destruct (m w) as [[a' | x | ] w1 fx1]; cbn [outcome final].
  - intros H. left. exact H.
  - destruct (h x w1) as [o w2 fx2] eqn:Hh. cbn [outcome]. intros ->.
    right. exists x. split; [reflexivity|]. rewrite Hh. reflexivity.
  - discriminate.
Qed.

Lemma ret_outcome {A} (a a' : A) (w : World) :
  outcome (ret a w) = Normal a' -> a' = a.
Proof. cbn. intros H. inversion H. reflexivity. Qed.

(** The step of one iteration: what the [try]/[catch] of lines 81-96
    hands to the rest of the loop when it does not throw. *)
Lemma iteration_outcome (env : Env) (currentPrompt : string) (i : nat)
    (response : option Response) (w : World) (step : Flow * option Response) :
  outcome
    (try_catch
       (r <- fetch env currentPrompt i ;;
        if ok r then ret (Break, Some r)
        else if retryable r then
          sleep env (AtBackoff i) (backoff i) ;;
          ret (Continue, Some r)
        else ret (Break, Some r))
       (fun fetchErr =>
          if (i =? maxRetries - 1)%nat then throw fetchErr
          else
            sleep env (AtBackoff i) (backoff i) ;;
            ret (Continue, response)) w)
  = Normal step ->
  (exists flow r, step = (flow, Some r))
  \/ (i <> maxRetries - 1 /\ step = (Continue, response)).
Proof.
  intros H. apply try_catch_outcome_normal in H as [H | (x & _ & H)].
  - left. apply bind_outcome_normal in H as (r & _ & H).
    destruct (ok r); [|destruct (retryable r)].
    + apply ret_outcome in H. eauto.
    + apply bind_outcome_normal in H as (u & _ & H).
      apply ret_outcome in H. eauto.
    + apply ret_outcome in H. eauto.
  - right. destruct (Nat.eqb_spec i (maxRetries - 1)) as [E | E].
    + discriminate.
    + apply bind_outcome_normal in H as (u & _ & H).
      apply ret_outcome in H. auto.
Qed.

(** Whatever the state the loop is run from: if it returns, it returns
    a response. *)
Lemma retry_loop_response (env : Env) (currentPrompt : string) (fuel : nat) :
  forall i response w response',
    i + fuel = maxRetries ->
    fuel <> 0 \/ response <> None ->
    outcome (retry_loop env currentPrompt fuel i response w) = Normal response' ->
    response' <> None.
Proof.
  induction fuel as [|fuel IH]; intros i response w response' Hsum Hstart H.
  - apply ret_outcome in H. subst. destruct Hstart; congruence.
  - cbn [retry_loop] in H.
    apply bind_outcome_normal in H as (step & Hstep & Hrest).
    apply iteration_outcome in Hstep as [(flow & r & ->) | (Hi & ->)].
    + destruct flow.
      * apply ret_outcome in Hrest. subst. discriminate.
      * eapply IH; [ | | exact Hrest]; [lia | right; discriminate].
    + eapply IH; [ | | exact Hrest]; [lia|].
      left. unfold maxRetries in *. lia.
Qed.

(** The same, on the control flow alone. *)
Lemma loop_exit_response (net : nat -> FetchOutcome) (fuel : nat) :
  forall i response response',
    i + fuel = maxRetries ->
    fuel <> 0 \/ response <> None ->
    loop_exit net fuel i response = Normal response' ->
    response' <> None.
Proof.
  induction fuel as [|fuel IH]; intros i response response' Hsum Hstart; simpl.
  - intros H. inversion H; subst. destruct Hstart; congruence.
  - destruct (net i) as [r | fetchErr].
    + destruct (ok r); [intros H; inversion H; discriminate|].
      destruct (retryable r).
      * apply IH; [lia | right; discriminate].
      * intros H; inversion H; discriminate.
    + change (maxRetries - 1) with 2.
      destruct (Nat.eqb_spec i 2) as [-> | Hi]; [discriminate|].
      apply IH; [lia|].
      left. unfold maxRetries in Hsum. lia.
Qed.

(** A rejection on the last attempt leaves the loop as a throw. *)
Lemma last_rejection_propagates (net : nat -> FetchOutcome) (response : option Response)
    (x : Thrown) :
  net (maxRetries - 1) = Rejected x ->
  loop_exit net 1 (maxRetries - 1) response = Throw x.
Proof. intros H. cbn [loop_exit]. rewrite H. reflexivity. Qed.

Lemma decimal_is_not_words (n : N) : decimal n <> "Network Error".
Proof.
  unfold decimal. destruct (N.to_uint n); simpl; discriminate.
Qed.

(** C10.  Whenever the retry loop exits without throwing, [response]
    is not null: a fetch that rejects on the last attempt is thrown out
    of the loop, and every other way out has assigned [response].  So
    [response!] is safe and the constructed message always names a
    status code, never "Network Error". *)
Theorem C10_response_is_never_null
    (env : Env) (currentPrompt : string) (w : World) (response : option Response) :
  outcome (retry_loop env currentPrompt maxRetries 0 None w) = Normal response ->
  exists r,
    response = Some r
    /\ http_error_text response = ("HTTP error! status: " ++ decimal (status r))%string
    /\ http_error_text response <> "HTTP error! status: Network Error".
Proof.
  intros Ho.
  assert (Hsome : response <> None).
  { eapply (retry_loop_response env currentPrompt maxRetries 0 None w response);
      [reflexivity | left; discriminate | exact Ho]. }
  destruct response as [r|]; [|congruence].
  exists r. split; [reflexivity|]. split; [reflexivity|].
  cbn [http_error_text]. intros H. inversion H as [H'].
  exact (decimal_is_not_words _ H').
Qed.

Lemma C10_response_witness :
  outcome (retry_loop (always (error_response 503 None)) "Moby Dick" maxRetries 0 None
             (begun initial))
  = Normal (Some (error_response 503 None))
  /\ exists r,
       Some (error_response 503 None) = Some r
       /\ http_error_text (Some (error_response 503 None))
          = ("HTTP error! status: " ++ decimal (status r))%string
       /\ http_error_text (Some (error_response 503 None))
          <> "HTTP error! status: Network Error".
Proof.
  assert (Ho : outcome (retry_loop (always (error_response 503 None)) "Moby Dick"
                          maxRetries 0 None (begun initial))
               = Normal (Some (error_response 503 None)))
    by (vm_compute; reflexivity).
  split; [exact Ho|].
  exact (C10_response_is_never_null (always (error_response 503 None)) "Moby Dick"
           (begun initial) (Some (error_response 503 None)) Ho).
Defined.

(** ** Sample runs *)

(** 503, 503, then 200, while the user keeps clicking and typing during
    every suspension: three network calls, 500ms and 1000ms apart, and
    the suggestion ends up displayed. *)
Example impatient_user :
  let env :=
    answering
      [error_response 503 None; error_response 503 None;
       suggestion_response "Inter" "Clean and neutral."]
      [Submitted true None; Typed "Dracula"; Submitted true None;
       Submitted false (Some "  ")] in
  let r := handleSubmit env true (Some "Moby Dick") initial in
  outcome r = Normal tt
  /\ timeline (effects r)
     = [Fetch API_URL "Moby Dick"; SetTimeout 500;
        Fetch API_URL "Moby Dick"; SetTimeout 1000;
        Fetch API_URL "Moby Dick"]
  /\ result (final r)
     = Some (mkObj 1 (mkFontSuggestion "Inter" "Clean and neutral."))
  /\ displayed (final r)
     = (Some "Please enter a title to analyze.", false,
        Some (mkObj 1 (mkFontSuggestion "Inter" "Clean and neutral.")))
  /\ lastPromptRef (final r) = Some "Moby Dick"
  /\ prompt (final r) = "Dracula".
Proof. vm_compute. repeat split. Qed.

(** The fallback, twice: the second failure, for another title, keeps
    the fallback object that is already displayed. *)
Example offline_twice :
  let r1 := handleSubmit offline true (Some "Moby Dick") initial in
  let r2 := handleSubmit offline true (Some "Dracula") (final r1) in
  result (final r1) = Some MOCK_FONT_SUGGESTION
  /\ result (final r2) = Some MOCK_FONT_SUGGESTION
  /\ lastPromptRef (final r2) = Some "Dracula"
  /\ network_calls (effects r2) = 3.
Proof. vm_compute. repeat split. Qed.

(* ================================================================== *)
(** * Part III.  Beyond the single call                                *)
(* ================================================================== *)

(** ** More on trimming *)

Lemma trimStart_idempotent (s : string) : trimStart (trimStart s) = trimStart s.
Proof.
  induction s as [|c rest IH]; simpl.
  - reflexivity.
  - destruct (is_whitespace c) eqn:E; [exact IH|]. simpl. rewrite E. reflexivity.
Qed.

Lemma trimEnd_idempotent (s : string) : trimEnd (trimEnd s) = trimEnd s.
Proof.
  induction s as [|c rest IH]; simpl.
  - reflexivity.
  - destruct (trimEnd rest) as [|c' kept] eqn:E.
    + destruct (is_whitespace c) eqn:Hc; simpl; [reflexivity|]. rewrite Hc. reflexivity.
    + cbn [trimEnd]. cbn [trimEnd] in IH. rewrite IH. reflexivity.
Qed.

(** Trimming the end leaves a clean start clean. *)
Lemma trimStart_trimEnd (s : string) :
  trimStart s = s -> trimStart (trimEnd s) = trimEnd s.
Proof.
  destruct s as [|c rest]; [reflexivity|]. intros H.
  assert (Hc : is_whitespace c = false).
  { destruct (trimStart_head (String c rest)) as [E | (c' & rest' & E & Hc')];
      rewrite H in E; [discriminate|]. inversion E. subst. exact Hc'. }
  simpl. destruct (trimEnd rest); [rewrite Hc|]; simpl; rewrite Hc; reflexivity.
Qed.

Lemma trim_idempotent (s : string) : trim (trim s) = trim s.
Proof.
  unfold trim.
  rewrite (trimStart_trimEnd (trimStart s) (trimStart_idempotent s)).
  apply trimEnd_idempotent.
Qed.

(** ** What one call puts on the network and on the clock *)

Lemma waited_app (a b : list Effect) : waited (a ++ b) = (waited a + waited b)%N.
Proof.
  induction a as [|fx rest IH]; simpl; [reflexivity|].
  destruct fx; rewrite ?IH; lia.
Qed.

Lemma waited_timeline (fxs : list Effect) : waited (timeline fxs) = waited fxs.
Proof.
  unfold timeline. induction fxs as [|fx rest IH]; simpl; [reflexivity|].
  destruct fx; simpl; rewrite ?IH; reflexivity.
Qed.

Lemma fetch_in_timeline (url p : string) (fxs : list Effect) :
  In (Fetch url p) fxs -> In (Fetch url p) (timeline fxs).
Proof. intros H. apply filter_In. split; [exact H | reflexivity]. Qed.

Lemma loop_schedule_fetches (net : nat -> FetchOutcome) (currentPrompt : string) (fuel : nat) :
  forall i, fetches_are currentPrompt (loop_schedule net currentPrompt fuel i).
Proof.
  unfold fetches_are.
  induction fuel as [|fuel IH]; intros i url p; cbn [loop_schedule]; [intros []|].
  intros [H | H]; [inversion H; auto|].
  destruct (net i) as [r | x].
  - destruct (ok r); [destruct H|]. destruct (retryable r); [|destruct H].
    destruct H as [H | H]; [discriminate | exact (IH _ _ _ H)].
  - destruct (i =? maxRetries - 1)%nat; [destruct H|].
    destruct H as [H | H]; [discriminate | exact (IH _ _ _ H)].
Qed.

(** The loop waits 500ms, 1000ms and 2000ms at most. *)
Lemma loop_schedule_waited (net : nat -> FetchOutcome) (currentPrompt : string) :
  (waited (loop_schedule net currentPrompt maxRetries 0) <= 3500)%N.
Proof.
  unfold maxRetries. cbn [loop_schedule Nat.sub Nat.eqb].
  repeat match goal with
         | |- context [match net ?i with _ => _ end] => destruct (net i)
         | |- context [if ok ?r then _ else _] => destruct (ok r)
         | |- context [if retryable ?r then _ else _] => destruct (retryable r)
         end;
    vm_compute; discriminate.
Qed.

(** The network calls and the timers of a request: those of the retry
    loop, and the 500ms before the fallback if it came to that. *)
Lemma request_timeline (env : Env) (currentPrompt : string) (w : World) :
  exists w' fx tail,
    request env currentPrompt w = mkRun (Normal tt) w' fx
    /\ (tail = [] \/ tail = [SetTimeout 500])
    /\ timeline fx = loop_schedule (fetch_result env) currentPrompt maxRetries 0 ++ tail.
Proof.
  destruct (try_verdict env) as [b | x | ] eqn:Hv.
  - destruct (request_succeeds env currentPrompt w b Hv) as (w' & fx & Hr & Ht & _).
    exists w', fx, []. rewrite app_nil_r. auto.
  - destruct (looks_like_network_error (errorMsg_of x)) eqn:Hnet.
    + destruct (request_falls_back env currentPrompt w x Hv Hnet) as (w' & fx & Hr & Ht & _).
      exists w', fx, [SetTimeout 500]. auto.
    + destruct (request_reports env currentPrompt w x Hv Hnet) as (w' & fx & Hr & Ht & _).
      exists w', fx, []. rewrite app_nil_r. auto.
  - destruct (try_verdict_not_overlap env Hv).
Qed.

Lemma handleSubmit_timeline_passes
    (env : Env) (e : bool) (initialPrompt : option string) (w : World) :
  passes_guards initialPrompt w ->
  exists tail,
    (tail = [] \/ tail = [SetTimeout 500])
    /\ timeline (effects (handleSubmit env e initialPrompt w))
       = loop_schedule (fetch_result env) (currentPrompt_of initialPrompt (prompt w))
           maxRetries 0 ++ tail.
Proof.
  intros Hp.
  destruct (request_timeline env (currentPrompt_of initialPrompt (prompt w)) w)
    as (w' & fx & tail & Hr & Htail & Ht).
  exists tail. split; [exact Htail|].
  rewrite (handleSubmit_passes env e initialPrompt w w' _ fx Hp Hr). cbn [effects].
  rewrite timeline_default_prevented. exact Ht.
Qed.

(** The network calls and the timers of one call: none when a check
    stopped it; otherwise those of the request for the title the call
    started with. *)
Lemma handleSubmit_timeline
    (env : Env) (e : bool) (initialPrompt : option string) (w : World) :
  timeline (effects (handleSubmit env e initialPrompt w)) = []
  \/ (passes_guards initialPrompt w
      /\ exists tail,
           (tail = [] \/ tail = [SetTimeout 500])
           /\ timeline (effects (handleSubmit env e initialPrompt w))
              = loop_schedule (fetch_result env)
                  (currentPrompt_of initialPrompt (prompt w)) maxRetries 0 ++ tail).
Proof.
  destruct (guards_cases initialPrompt w) as [Hg | [Hg | [Hp _]]].
  - left. rewrite (handleSubmit_stops env e initialPrompt w _ Hg). cbn [effects].
    apply stopped_call_is_quiet.
  - left. rewrite (handleSubmit_stops env e initialPrompt w _ Hg). cbn [effects].
    apply stopped_call_is_quiet.
  - right. split; [exact Hp|]. apply handleSubmit_timeline_passes, Hp.
Qed.

(** X1.  Every request a call sends goes to [API_URL] and carries the title
    the call started with, trimmed and not empty: neither what the user
    types meanwhile nor a submission arriving meanwhile changes what is
    asked; and there are at most [maxRetries] of them. *)
Theorem requests_carry_the_submitted_title
    (env : Env) (e : bool) (initialPrompt : option string) (w : World)
    (url p : string) :
  In (Fetch url p) (effects (handleSubmit env e initialPrompt w)) ->
  url = API_URL
  /\ p = trim (title_of initialPrompt (prompt w))
  /\ p <> ""
  /\ network_calls (effects (handleSubmit env e initialPrompt w)) <= maxRetries.
Proof.
  intros Hin. apply fetch_in_timeline in Hin.
  destruct (handleSubmit_timeline env e initialPrompt w)
    as [Hq | ((Hne & _) & tail & Htail & Ht)].
  - rewrite Hq in Hin. destruct Hin.
  - rewrite Ht in Hin. apply in_app_or in Hin.
    assert (Hfetch : url = API_URL /\ p = currentPrompt_of initialPrompt (prompt w)).
    { destruct Hin as [Hin | Hin].
      - exact (loop_schedule_fetches _ _ _ _ _ _ Hin).
      - destruct Htail as [-> | ->]; [destruct Hin|].
        destruct Hin as [Hin | []]. discriminate. }
    destruct Hfetch as [-> ->]. splits; try reflexivity.
    + exact Hne.
    + apply at_most_maxRetries_calls.
Qed.

Lemma requests_carry_the_submitted_title_witness :
  In (Fetch API_URL "Moby Dick")
     (effects (handleSubmit offline true (Some "  Moby Dick ") initial))
  /\ API_URL = API_URL
  /\ "Moby Dick" = trim (title_of (Some "  Moby Dick ") (prompt initial))
  /\ "Moby Dick" <> ""
  /\ network_calls (effects (handleSubmit offline true (Some "  Moby Dick ") initial))
     <= maxRetries.
Proof.
  assert (Hin : In (Fetch API_URL "Moby Dick")
                   (effects (handleSubmit offline true (Some "  Moby Dick ") initial)))
    by (vm_compute; auto).
  split; [exact Hin|].
  exact (requests_carry_the_submitted_title offline true (Some "  Moby Dick ") initial
           API_URL "Moby Dick" Hin).
Defined.

(** X2.  The timers of one call add up to four seconds at most: 500ms,
    1000ms and 2000ms of back-off, and 500ms before the fallback. *)
Theorem one_call_waits_four_seconds_at_most
    (env : Env) (e : bool) (initialPrompt : option string) (w : World) :
  (waited (effects (handleSubmit env e initialPrompt w)) <= 4000)%N.
Proof.
  rewrite <- waited_timeline.
  destruct (handleSubmit_timeline env e initialPrompt w) as [Hq | (_ & tail & Htail & Ht)].
  - rewrite Hq. vm_compute. discriminate.
  - rewrite Ht, waited_app.
    pose proof (loop_schedule_waited (fetch_result env)
                  (currentPrompt_of initialPrompt (prompt w))) as Hle.
    destruct Htail as [-> | ->]; cbn [waited]; lia.
Qed.

(** The bound is met: three answers with status 503 whose [details]
    read like a network failure. *)
Example four_seconds_are_reached :
  waited (effects (handleSubmit (always (error_response 503 (Some "NetworkError")))
                     true (Some "Moby Dick") initial))
  = 4000%N.
Proof. vm_compute. reflexivity. Qed.

(** X3.  White space around the title makes no difference to a call: the
    title and the trimmed title give the same run, state and effects. *)
Theorem padding_is_ignored
    (env : Env) (e : bool) (title : string) (w : World) :
  handleSubmit env e (Some (trim title)) w = handleSubmit env e (Some title) w.
Proof.
  unfold handleSubmit, guards, currentPrompt_of, title_of.
  rewrite trim_idempotent. reflexivity.
Qed.

(** ** Properties of the state that a computation keeps *)

Section Keeps.
Context {A B : Type}.
Variable P : World -> Prop.

Lemma keeps_ret (a : A) : keeps P (ret a).
Proof. intros w Hw. exact Hw. Qed.

Lemma keeps_throw (x : Thrown) : keeps P (@throw A x).
Proof. intros w Hw. exact Hw. Qed.

Lemma keeps_overlap : keeps P (@overlap A).
Proof. intros w Hw. exact Hw. Qed.

Lemma keeps_gets (f : World -> A) : keeps P (gets f).
Proof. intros w Hw. exact Hw. Qed.

Lemma keeps_emit (fx : Effect) : keeps P (emit fx).
Proof. intros w Hw. exact Hw. Qed.

Lemma keeps_bind (m : M A) (k : A -> M B) :
  keeps P m -> (forall a, keeps P (k a)) -> keeps P (bind m k).
Proof.
  intros Hm Hk w Hw. specialize (Hm w Hw). unfold bind.
  destruct (m w) as [[a | x | ] w1 fx]; cbn [final] in *; try exact Hm.
  specialize (Hk a w1 Hm). destruct (k a w1) as [o w2 fx']. exact Hk.
Qed.

Lemma keeps_try_catch (m : M A) (h : Thrown -> M A) :
  keeps P m -> (forall x, keeps P (h x)) -> keeps P (try_catch m h).
Proof.
  intros Hm Hh w Hw. specialize (Hm w Hw). unfold try_catch.
  destruct (m w) as [[a | x | ] w1 fx]; cbn [final] in *; try exact Hm.
  specialize (Hh x w1 Hm). destruct (h x w1) as [o w2 fx']. exact Hh.
Qed.

Lemma keeps_try_finally (m : M A) (cleanup : M unit) :
  keeps P m -> keeps P cleanup -> keeps P (try_finally m cleanup).
Proof.
  intros Hm Hc w Hw. specialize (Hm w Hw). unfold try_finally.
  destruct (m w) as [[a | x | ] w1 fx]; cbn [final] in *; try exact Hm;
    specialize (Hc w1 Hm); destruct (cleanup w1) as [[[] | y | ] w2 fx']; exact Hc.
Qed.
End Keeps.

(** What the [error] field may hold.  [Q] is a property of the field;
    the submissions that arrive during a suspension can only put the
    validation message there. *)
Section ErrorField.
Variable Q : option string -> Prop.
Variable env : Env.
Hypothesis arriving :
  forall site ev, In ev (during env site) ->
    (exists v, ev = Typed v) \/ Q (Some "Please enter a title to analyze."%string).

Let P (w : World) : Prop := Q (error w).

Lemma modify_keeps_error (f : World -> World) :
  (forall w, error (f w) = error w) -> keeps P (modify f).
Proof. intros Hf w Hw. unfold P. cbn. rewrite Hf. exact Hw. Qed.

Lemma setError_keeps (v : option string) : Q v -> keeps P (setError v).
Proof. intros Hv w _. exact Hv. Qed.

Lemma preventDefault_keeps (e : bool) : keeps P (preventDefault e).
Proof. destruct e; [apply keeps_emit | apply keeps_ret]. Qed.

Lemma guards_keeps (initialPrompt : option string) :
  Q (Some "Please enter a title to analyze."%string) -> keeps P (guards initialPrompt).
Proof.
  intros Hv w Hw.
  destruct (guards_cases initialPrompt w) as [Hg | [Hg | [_ Hg]]]; rewrite Hg.
  - exact Hv.
  - exact Hw.
  - exact Hw.
Qed.

Lemma dispatch_keeps (ev : UIEvent) :
  (exists v, ev = Typed v) \/ Q (Some "Please enter a title to analyze."%string) ->
  keeps P (dispatch ev).
Proof.
  intros Hev. destruct ev as [v | e initialPrompt].
  - apply modify_keeps_error. reflexivity.
  - destruct Hev as [(v & Hv) | Hv]; [discriminate|].
    unfold dispatch. apply keeps_bind; [apply preventDefault_keeps|]. intros _.
    apply keeps_bind; [apply guards_keeps, Hv|].
    intros [cp|]; [apply keeps_overlap | apply keeps_ret].
Qed.

Lemma meanwhile_keeps (evs : list UIEvent) :
  (forall ev, In ev evs ->
     (exists v, ev = Typed v) \/ Q (Some "Please enter a title to analyze."%string)) ->
  keeps P (meanwhile evs).
Proof.
  induction evs as [|ev rest IH]; intros Hevs; cbn [meanwhile].
  - apply keeps_ret.
  - apply keeps_bind.
    + apply dispatch_keeps, Hevs. now left.
    + intros _. apply IH. intros ev' Hin. apply Hevs. now right.
Qed.

Lemma suspend_keeps (site : AwaitSite) : keeps P (suspend env site).
Proof. apply meanwhile_keeps, arriving. Qed.

Lemma sleep_keeps (site : AwaitSite) (ms : N) : keeps P (sleep env site ms).
Proof. apply keeps_bind; [apply keeps_emit | intros _; apply suspend_keeps]. Qed.

Lemma fetch_keeps (currentPrompt : string) (i : nat) :
  keeps P (fetch env currentPrompt i).
Proof.
  unfold fetch. apply keeps_bind; [apply keeps_emit|]. intros _.
  apply keeps_bind; [apply suspend_keeps|]. intros _.
  destruct (fetch_result env i); [apply keeps_ret | apply keeps_throw].
Qed.

Lemma json_keeps (r : Response) : keeps P (json env r).
Proof.
  unfold json. apply keeps_bind; [apply suspend_keeps|]. intros _.
  destruct (json_result r); [apply keeps_ret | apply keeps_throw].
Qed.

Lemma retry_loop_keeps (currentPrompt : string) (fuel : nat) :
  forall i response, keeps P (retry_loop env currentPrompt fuel i response).
Proof.
  induction fuel as [|fuel IH]; intros i response; cbn [retry_loop].
  - apply keeps_ret.
  - apply keeps_bind.
    + apply keeps_try_catch.
      * apply keeps_bind; [apply fetch_keeps|]. intros r.
        destruct (ok r); [apply keeps_ret|].
        destruct (retryable r); [|apply keeps_ret].
        apply keeps_bind; [apply sleep_keeps | intros _; apply keeps_ret].
      * intros fetchErr. destruct (i =? maxRetries - 1)%nat; [apply keeps_throw|].
        apply keeps_bind; [apply sleep_keeps | intros _; apply keeps_ret].
    + intros [[|] response']; [apply keeps_ret | apply IH].
Qed.

Lemma fail_with_response_keeps (response : option Response) :
  keeps P (fail_with_response env response).
Proof.
  unfold fail_with_response. apply keeps_bind.
  - apply keeps_try_catch.
    + destruct response as [r|]; [|apply keeps_throw].
      apply keeps_bind; [apply json_keeps | intros b; apply keeps_ret].
    + intros _. apply keeps_ret.
  - intros errData. apply keeps_throw.
Qed.

Lemma try_body_keeps (currentPrompt : string) : keeps P (try_body env currentPrompt).
Proof.
  unfold try_body. apply keeps_bind; [apply retry_loop_keeps|].
  intros [r|]; [|apply fail_with_response_keeps].
  destruct (ok r); [|apply fail_with_response_keeps].
  apply keeps_bind; [apply json_keeps|]. intros b.
  apply keeps_bind; [intros w Hw; exact Hw|]. intros data.
  apply keeps_bind; [apply modify_keeps_error; reflexivity|]. intros _.
  apply modify_keeps_error; reflexivity.
Qed.

(** With the messages of the [catch] block and the cleared field
    allowed as well, the whole call keeps [Q]. *)
Hypothesis cleared : Q None.
Hypothesis invalid : Q (Some "Please enter a title to analyze."%string).
Hypothesis advised : Q (Some mock_notice).
Hypothesis reported : forall msg, Q (Some ("Server Error: " ++ msg ++ ".")%string).

Lemma catch_block_keeps (currentPrompt : string) (err : Thrown) :
  keeps P (catch_block env currentPrompt err).
Proof.
  unfold catch_block. destruct (looks_like_network_error (errorMsg_of err)).
  - apply keeps_bind; [apply keeps_emit|]. intros _.
    apply keeps_bind; [apply sleep_keeps|]. intros _.
    apply keeps_bind; [apply modify_keeps_error; reflexivity|]. intros _.
    apply keeps_bind; [apply setError_keeps, advised|]. intros _.
    apply modify_keeps_error; reflexivity.
  - apply keeps_bind; [apply keeps_emit|]. intros _.
    apply setError_keeps, reported.
Qed.

Lemma request_keeps (currentPrompt : string) : keeps P (request env currentPrompt).
Proof.
  unfold request.
  apply keeps_bind; [apply modify_keeps_error; reflexivity|]. intros _.
  apply keeps_bind; [apply modify_keeps_error; reflexivity|]. intros _.
  apply keeps_bind; [apply setError_keeps, cleared|]. intros _.
  apply keeps_try_finally.
  - apply keeps_try_catch; [apply try_body_keeps | apply catch_block_keeps].
  - apply keeps_bind; [apply modify_keeps_error; reflexivity|]. intros _.
    apply modify_keeps_error; reflexivity.
Qed.

Lemma handleSubmit_keeps (e : bool) (initialPrompt : option string) :
  keeps P (handleSubmit env e initialPrompt).
Proof.
  unfold handleSubmit. apply keeps_bind; [apply preventDefault_keeps|]. intros _.
  apply keeps_bind; [apply guards_keeps, invalid|].
  intros [currentPrompt|]; [apply request_keeps | apply keeps_ret].
Qed.
End ErrorField.

(** ** What the page shows once a call is over *)

Lemma mock_notice_truthy : truthy mock_notice = true.
Proof. reflexivity. Qed.

Lemma server_error_truthy (msg : string) :
  truthy ("Server Error: " ++ msg ++ ".")%string = true.
Proof. reflexivity. Qed.

(** The state a successful request leaves, with the [error] field as
    the [try] block left it. *)
Lemma request_succeeds_keeping
    (Q : option string -> Prop) (env : Env) (currentPrompt : string) (w : World) (b : Body) :
  (forall site ev, In ev (during env site) ->
     (exists v, ev = Typed v) \/ Q (Some "Please enter a title to analyze."%string)) ->
  Q None ->
  try_verdict env = Normal b ->
  exists w' fx,
    request env currentPrompt w = mkRun (Normal tt) w' fx
    /\ Q (error w')
    /\ loading w' = false
    /\ exists stored, result w' = Some stored /\ fields stored = suggestion_of b.
Proof.
  intros Hev Hnone Hv.
  destruct (try_body_returns env currentPrompt (begun w) (begun_busy w) b Hv)
    as (w1 & fx & Hb & _ & B1 & _).
  pose proof (try_body_keeps Q env Hev currentPrompt (begun w) Hnone) as Hq.
  rewrite Hb in Hq. cbn [final] in Hq.
  exists (released w1), fx. splits.
  - apply request_run. eapply try_catch_normal. exact Hb.
  - exact Hq.
  - reflexivity.
  - destruct (keep_if_same_shows (parsed (begun w) b) (result (begun w)))
      as (stored & Hs & Hf).
    exists stored. split; [cbn [released result]; rewrite B1; exact Hs | exact Hf].
Qed.

(** X4.  When the request succeeds and the user did no more than type
    meanwhile, [error] is empty at the end and the page shows the
    suggestion: the font and the reason the service gave, and a preview of
    what the input holds by then, set in that font (or in "sans-serif"
    for an empty font name). *)
Theorem success_shows_the_suggestion
    (env : Env) (e : bool) (initialPrompt : option string) (w : World) (b : Body) :
  passes_guards initialPrompt w ->
  only_typing env ->
  try_verdict env = Normal b ->
  let w' := final (handleSubmit env e initialPrompt w) in
  error w' = None
  /\ shown w'
     = ResultCard (body_font_name b) (body_reason b)
         (if truthy (body_font_name b) then body_font_name b else "sans-serif"%string)
         (prompt w').
Proof.
  intros Hp Hty Hv.
  destruct (request_succeeds_keeping (fun err => err = None) env
              (currentPrompt_of initialPrompt (prompt w)) w b)
    as (w' & fx & Hr & He & Hl & stored & Hs & Hf);
    [intros site ev Hin; left; exact (Hty site ev Hin) | reflexivity | exact Hv |].
  rewrite (handleSubmit_passes env e initialPrompt w w' _ fx Hp Hr). cbn [final].
  split; [exact He|].
  unfold shown, ResultDisplay. rewrite He, Hl, Hs, Hf. reflexivity.
Qed.

Lemma success_shows_the_suggestion_witness :
  let env := answering [suggestion_response "Inter" "Clean and neutral."] [Typed "Dracula"] in
  let w' := final (handleSubmit env true (Some "Moby Dick") initial) in
  prompt w' = "Dracula"%string
  /\ error w' = None
  /\ shown w' = ResultCard "Inter" "Clean and neutral." "Inter" (prompt w').
Proof.
  split; [vm_compute; reflexivity|].
  refine (success_shows_the_suggestion
            (answering [suggestion_response "Inter" "Clean and neutral."] [Typed "Dracula"])
            true (Some "Moby Dick") initial (mkBody "Inter" "Clean and neutral." None)
            _ _ _).
  - unfold passes_guards. vm_compute. repeat split; discriminate.
  - intros site ev [<- | []]. exists "Dracula"%string. reflexivity.
  - vm_compute. reflexivity.
Defined.

(** X5.  When the request succeeds, whatever arrived meanwhile, [error] is
    empty or holds the validation message (a blank submission arrived
    while the request was running): the page shows the suggestion, or
    the validation message in its place. *)
Theorem success_may_end_on_the_validation_message
    (env : Env) (e : bool) (initialPrompt : option string) (w : World) (b : Body) :
  passes_guards initialPrompt w ->
  try_verdict env = Normal b ->
  let w' := final (handleSubmit env e initialPrompt w) in
  (error w' = None
   /\ shown w'
      = ResultCard (body_font_name b) (body_reason b)
          (if truthy (body_font_name b) then body_font_name b else "sans-serif"%string)
          (prompt w'))
  \/ (error w' = Some "Please enter a title to analyze."%string
      /\ shown w' = ErrorPanel "Please enter a title to analyze."
      /\ exists stored, result w' = Some stored /\ fields stored = suggestion_of b).
Proof.
  intros Hp Hv.
  destruct (request_succeeds_keeping
              (fun err => err = None \/ err = Some "Please enter a title to analyze."%string)
              env (currentPrompt_of initialPrompt (prompt w)) w b)
    as (w' & fx & Hr & He & Hl & stored & Hs & Hf);
    [intros site ev Hin; right; right; reflexivity | left; reflexivity | exact Hv |].
  rewrite (handleSubmit_passes env e initialPrompt w w' _ fx Hp Hr). cbn [final].
  destruct He as [He | He].
  - left. split; [exact He|].
    unfold shown, ResultDisplay. rewrite He, Hl, Hs, Hf. reflexivity.
  - right. split; [exact He|]. split.
    + unfold shown, ResultDisplay. rewrite He. reflexivity.
    + exists stored. auto.
Qed.

Lemma success_may_end_on_the_validation_message_witness :
  let env := answering [suggestion_response "Inter" "Clean and neutral."]
               [Submitted true (Some "  ")] in
  let w' := final (handleSubmit env true (Some "Moby Dick") initial) in
  shown w' = ErrorPanel "Please enter a title to analyze."
  /\ ((error w' = None
       /\ shown w' = ResultCard "Inter" "Clean and neutral." "Inter" (prompt w'))
      \/ (error w' = Some "Please enter a title to analyze."%string
          /\ shown w' = ErrorPanel "Please enter a title to analyze."
          /\ exists stored,
               result w' = Some stored
               /\ fields stored = mkFontSuggestion "Inter" "Clean and neutral.")).
Proof.
  split; [vm_compute; reflexivity|].
  refine (success_may_end_on_the_validation_message
            (answering [suggestion_response "Inter" "Clean and neutral."]
               [Submitted true (Some "  ")])
            true (Some "Moby Dick") initial (mkBody "Inter" "Clean and neutral." None)
            _ _).
  - unfold passes_guards. vm_compute. repeat split; discriminate.
  - vm_compute. reflexivity.
Defined.

(** X6.  When the request fails, the page ends on the error panel: with the
    advisory text when the failure reads like a network failure, with
    "Server Error: ..." otherwise.  In the first case the fallback
    suggestion is stored but not shown (the panel takes its place),
    and its font, "Press Start 2P", is the one the font loader is given. *)
Theorem failure_shows_the_error_panel
    (env : Env) (e : bool) (initialPrompt : option string) (w : World) (x : Thrown) :
  passes_guards initialPrompt w ->
  try_verdict env = Throw x ->
  let w' := final (handleSubmit env e initialPrompt w) in
  shown w'
  = ErrorPanel (if looks_like_network_error (errorMsg_of x) then mock_notice
                else ("Server Error: " ++ errorMsg_of x ++ ".")%string)
  /\ (looks_like_network_error (errorMsg_of x) = true ->
      nextFont_of (result w') = Some "Press Start 2P"%string).
Proof.
  intros Hp Hv.
  destruct (looks_like_network_error (errorMsg_of x)) eqn:Hnet.
  - destruct (request_falls_back env (currentPrompt_of initialPrompt (prompt w)) w x Hv Hnet)
      as (w' & fx & Hr & _ & H1 & _ & _ & _ & _ & H6).
    rewrite (handleSubmit_passes env e initialPrompt w w' _ fx Hp Hr). cbn [final].
    split.
    + unfold shown, ResultDisplay. rewrite H6, mock_notice_truthy. reflexivity.
    + intros _.
      destruct (keep_if_same_shows MOCK_FONT_SUGGESTION (result w)) as (stored & Hs & Hf).
      rewrite H1, Hs. unfold nextFont_of. rewrite Hf. reflexivity.
  - destruct (request_reports env (currentPrompt_of initialPrompt (prompt w)) w x Hv Hnet)
      as (w' & fx & Hr & _ & _ & _ & _ & _ & _ & H6).
    rewrite (handleSubmit_passes env e initialPrompt w w' _ fx Hp Hr). cbn [final].
    split; [|discriminate].
    unfold shown, ResultDisplay. rewrite H6, server_error_truthy. reflexivity.
Qed.

Lemma failure_shows_the_error_panel_witness :
  let w' := final (handleSubmit offline true (Some "Moby Dick") initial) in
  shown w' = ErrorPanel mock_notice
  /\ (true = true -> nextFont_of (result w') = Some "Press Start 2P"%string).
Proof.
  refine (failure_shows_the_error_panel offline true (Some "Moby Dick") initial
            (ErrorObject "Failed to fetch") _ _).
  - unfold passes_guards. vm_compute. repeat split; discriminate.
  - vm_compute. reflexivity.
Defined.

(** ** The page between two events *)

(** X7.  The [error] field only ever holds one of the messages the
    component writes: the validation message, the advisory text of the
    fallback, or "Server Error: ..."; in particular never the empty
    string, so that [if (error)] in [ResultDisplay] tests no more than
    whether there is a message. *)
Theorem error_is_one_of_three_messages (w : World) :
  reachable w ->
  (error w = None
   \/ error w = Some "Please enter a title to analyze."%string
   \/ error w = Some mock_notice
   \/ exists msg, error w = Some ("Server Error: " ++ msg ++ ".")%string)
  /\ error w <> Some ""%string.
Proof.
  intros Hr.
  assert (H : error w = None
              \/ error w = Some "Please enter a title to analyze."%string
              \/ error w = Some mock_notice
              \/ exists msg, error w = Some ("Server Error: " ++ msg ++ ".")%string).
  { induction Hr as [ | v w _ IH | env e initialPrompt w _ IH].
    - now left.
    - exact IH.
    - apply (handleSubmit_keeps
               (fun err => err = None
                           \/ err = Some "Please enter a title to analyze."%string
                           \/ err = Some mock_notice
                           \/ exists msg, err = Some ("Server Error: " ++ msg ++ ".")%string)
               env); auto.
      intros msg. right; right; right. exists msg. reflexivity. }
  split; [exact H|].
  destruct H as [H | [H | [H | (msg & H)]]]; rewrite H; discriminate.
Qed.

Lemma error_is_one_of_three_messages_witness :
  let w := final (handleSubmit (always (error_response 400 (Some "Title too long")))
                    true (Some "Moby Dick") initial) in
  error w = Some "Server Error: Title too long."%string
  /\ (error w = None
      \/ error w = Some "Please enter a title to analyze."%string
      \/ error w = Some mock_notice
      \/ exists msg, error w = Some ("Server Error: " ++ msg ++ ".")%string)
  /\ error w <> Some ""%string.
Proof.
  split; [vm_compute; reflexivity|].
  apply error_is_one_of_three_messages. apply reach_submitted, reach_initial.
Defined.

(** X8.  Between two events the page is never stuck: no spinner is showing,
    the input and the button are enabled and the button reads
    "Get Font Suggestion". *)
Theorem idle_page_accepts_input (w : World) :
  reachable w ->
  shown w <> Spinner
  /\ form w = mkFormView (prompt w) false false "Get Font Suggestion".
Proof.
  intros Hr. destruct (reachable_invariant w Hr) as (_ & Hl & _).
  split.
  - unfold shown, ResultDisplay. rewrite Hl.
    destruct (error w) as [msg|]; [destruct (truthy msg)|];
      destruct (result w); discriminate.
  - unfold form, FontAnalyzerForm. rewrite Hl. reflexivity.
Qed.

Lemma idle_page_accepts_input_witness :
  let w := final (handleSubmit offline true (Some "Moby Dick") initial) in
  shown w <> Spinner
  /\ form w = mkFormView (prompt w) false false "Get Font Suggestion".
Proof.
  apply idle_page_accepts_input. apply reach_submitted, reach_initial.
Defined.

(** X9.  Dedup Memory only ever holds a trimmed, non-empty title. *)
Theorem recorded_title_is_trimmed (w : World) (title : string) :
  reachable w ->
  lastPromptRef w = Some title ->
  trim title = title /\ title <> ""%string.
Proof.
  intros Hr. revert title.
  induction Hr as [ | v w _ IH | env e initialPrompt w _ IH]; intros title Hl.
  - discriminate.
  - exact (IH title Hl).
  - destruct (handleSubmit_cases env e initialPrompt w) as (w' & fx & Hrun & Hcases).
    rewrite Hrun in Hl. cbn [final] in Hl.
    destruct Hcases as [-> | [-> | ((Hne & _) & _ & _ & Hreq)]];
      [exact (IH title Hl) | exact (IH title Hl) |].
    assert (Hcp : lastPromptRef w' = Some (currentPrompt_of initialPrompt (prompt w))
                  \/ lastPromptRef w' = lastPromptRef w).
    { destruct Hreq as [(b & _ & _ & H & _) | [(x & _ & _ & _ & H & _)
                                             | (x & _ & _ & _ & H & _)]]; auto. }
    destruct Hcp as [Hcp | Hcp]; rewrite Hcp in Hl.
    + inversion Hl; subst title. split; [apply trim_idempotent | exact Hne].
    + exact (IH title Hl).
Qed.

Lemma recorded_title_is_trimmed_witness :
  let w := final (handleSubmit offline true (Some "  Moby Dick ") initial) in
  lastPromptRef w = Some "Moby Dick"%string
  /\ trim "Moby Dick" = "Moby Dick"%string /\ "Moby Dick"%string <> ""%string.
Proof.
  assert (Hl : lastPromptRef (final (handleSubmit offline true (Some "  Moby Dick ") initial))
               = Some "Moby Dick"%string) by (vm_compute; reflexivity).
  split; [exact Hl|].
  exact (recorded_title_is_trimmed _ "Moby Dick"
           (reach_submitted offline true (Some "  Moby Dick ") initial reach_initial) Hl).
Defined.

(** ** [loadGoogleFont] *)

Lemma getElementById_filter (doc : list Element) :
  getElementById "google-font-link" doc = hd_error (filter is_font_link doc).
Proof.
  unfold getElementById. induction doc as [|el rest IH]; simpl; [reflexivity|].
  fold (is_font_link el). destruct (is_font_link el); [reflexivity | exact IH].
Qed.

Lemma detach_links (doc : list Element) :
  filter is_font_link (detach "google-font-link" doc) = tl (filter is_font_link doc).
Proof.
  induction doc as [|el rest IH]; simpl; [reflexivity|].
  fold (is_font_link el). destruct (is_font_link el) eqn:E; simpl; [reflexivity|].
  rewrite E. exact IH.
Qed.

Lemma detach_others (doc : list Element) :
  others (detach "google-font-link" doc) = others doc.
Proof.
  unfold others. induction doc as [|el rest IH]; simpl; [reflexivity|].
  fold (is_font_link el). destruct (is_font_link el) eqn:E; simpl; [reflexivity|].
  rewrite E. simpl. rewrite IH. reflexivity.
Qed.

(** The font links of the document after a call, from those before. *)
Lemma loadGoogleFont_links (fontName : string) (doc : list Element) :
  fontName <> ""%string ->
  filter is_font_link (loadGoogleFont fontName doc)
  = match filter is_font_link doc with
    | [] => [font_link_element fontName]
    | el :: rest =>
        if match dataset_fontName el with
           | Some loaded => (loaded =? fontName)%string
           | None => false
           end
        then el :: rest
        else rest ++ [font_link_element fontName]
    end.
Proof.
  intros Hne. apply truthy_nonempty in Hne.
  unfold loadGoogleFont. rewrite Hne. cbn [negb].
  rewrite getElementById_filter.
  destruct (filter is_font_link doc) as [|el rest] eqn:E; cbn [hd_error].
  - rewrite filter_app, E. reflexivity.
  - destruct (match dataset_fontName el with
              | Some loaded => (loaded =? fontName)%string
              | None => false
              end); [exact E|].
    rewrite filter_app, detach_links, E. reflexivity.
Qed.

Lemma loadGoogleFont_found (fontName : string) (doc : list Element) :
  fontName <> ""%string ->
  one_font_link doc ->
  one_font_link (loadGoogleFont fontName doc)
  /\ exists el,
       getElementById "google-font-link" (loadGoogleFont fontName doc) = Some el
       /\ dataset_fontName el = Some fontName.
Proof.
  intros Hne Hone. unfold one_font_link in *.
  rewrite getElementById_filter, (loadGoogleFont_links fontName doc Hne).
  destruct (filter is_font_link doc) as [|el [|el' rest]]; cbn [length] in Hone; [| |lia].
  - split; [cbn; lia|]. exists (font_link_element fontName). split; reflexivity.
  - destruct (dataset_fontName el) as [loaded|] eqn:Hd.
    + destruct (String.eqb_spec loaded fontName) as [-> | _].
      * split; [cbn; lia|]. exists el. split; [reflexivity | exact Hd].
      * split; [cbn; lia|]. exists (font_link_element fontName). split; reflexivity.
    + split; [cbn; lia|]. exists (font_link_element fontName). split; reflexivity.
Qed.

Lemma loadGoogleFont_others (fontName : string) (doc : list Element) :
  others (loadGoogleFont fontName doc) = others doc.
Proof.
  unfold loadGoogleFont.
  destruct (negb (truthy fontName)); [reflexivity|].
  destruct (getElementById "google-font-link" doc) as [el|].
  - destruct (match dataset_fontName el with
              | Some loaded => (loaded =? fontName)%string
              | None => false
              end); [reflexivity|].
    unfold others. rewrite filter_app. fold (others (detach "google-font-link" doc)).
    rewrite detach_others. cbn. apply app_nil_r.
  - unfold others. rewrite filter_app. cbn. apply app_nil_r.
Qed.

(** X10.  After [loadGoogleFont] the document holds a link for the font
    asked for, and still no more than one font link; a link that was
    there for another font is gone. *)
Theorem loadGoogleFont_installs_the_font (fontName : string) (doc : list Element) :
  fontName <> ""%string ->
  one_font_link doc ->
  one_font_link (loadGoogleFont fontName doc)
  /\ (exists el,
        getElementById "google-font-link" (loadGoogleFont fontName doc) = Some el
        /\ dataset_fontName el = Some fontName)
  /\ forall el, In el (loadGoogleFont fontName doc) ->
                is_font_link el = true -> dataset_fontName el = Some fontName.
Proof.
  intros Hne Hone.
  destruct (loadGoogleFont_found fontName doc Hne Hone) as (Hone' & el & Hfind & Hd).
  splits; [exact Hone' | exists el; auto |].
  intros el' Hin Hlink.
  assert (Hin' : In el' (filter is_font_link (loadGoogleFont fontName doc)))
    by (apply filter_In; auto).
  rewrite getElementById_filter in Hfind. unfold one_font_link in Hone'.
  destruct (filter is_font_link (loadGoogleFont fontName doc)) as [|el0 [|el1 rest]];
    cbn [length hd_error] in *; [discriminate | | lia].
  destruct Hin' as [<- | []]. inversion Hfind. subst el0. exact Hd.
Qed.

Lemma loadGoogleFont_installs_the_font_witness :
  let doc := [mkElement "viewport" "" "" None; font_link_element "Inter"] in
  one_font_link (loadGoogleFont "Press Start 2P" doc)
  /\ (exists el,
        getElementById "google-font-link" (loadGoogleFont "Press Start 2P" doc) = Some el
        /\ dataset_fontName el = Some "Press Start 2P"%string)
  /\ forall el, In el (loadGoogleFont "Press Start 2P" doc) ->
                is_font_link el = true -> dataset_fontName el = Some "Press Start 2P"%string.
Proof.
  apply loadGoogleFont_installs_the_font.
  - discriminate.
  - unfold one_font_link. vm_compute. lia.
Defined.

(** X11.  In a document with at most one font link, loading the same
    font a second time changes nothing. *)
Theorem loadGoogleFont_twice (fontName : string) (doc : list Element) :
  one_font_link doc ->
  loadGoogleFont fontName (loadGoogleFont fontName doc) = loadGoogleFont fontName doc.
Proof.
  intros Hone.
  destruct (String.eqb_spec fontName "") as [-> | Hne]; [reflexivity|].
  destruct (loadGoogleFont_found fontName doc Hne Hone) as (_ & el & Hfind & Hd).
  generalize dependent (loadGoogleFont fontName doc). intros doc' Hfind.
  unfold loadGoogleFont. rewrite Hfind, Hd, String.eqb_refl.
  destruct (negb (truthy fontName)); reflexivity.
Qed.

Lemma loadGoogleFont_twice_witness :
  let doc := [mkElement "viewport" "" "" None; font_link_element "Inter"] in
  loadGoogleFont "Press Start 2P" (loadGoogleFont "Press Start 2P" doc)
  = loadGoogleFont "Press Start 2P" doc.
Proof.
  apply loadGoogleFont_twice. unfold one_font_link. vm_compute. lia.
Defined.

(** Without that, it may: with two font links in the document, each
    call takes one away and appends its own. *)
Example loadGoogleFont_twice_needs_one_link :
  let doc := [font_link_element "Inter"; font_link_element "Lora"] in
  loadGoogleFont "Roboto" (loadGoogleFont "Roboto" doc) <> loadGoogleFont "Roboto" doc.
Proof. vm_compute. discriminate. Qed.

(** X12.  [loadGoogleFont] touches nothing but the font link: every other
    element of the document stays, in its place. *)
Theorem loadGoogleFont_leaves_the_rest (fontName : string) (doc : list Element) (el : Element) :
  el_id el <> "google-font-link"%string ->
  others (loadGoogleFont fontName doc) = others doc
  /\ (In el (loadGoogleFont fontName doc) <-> In el doc).
Proof.
  intros Hid.
  pose proof (loadGoogleFont_others fontName doc) as Ho.
  split; [exact Ho|].
  assert (Hel : negb (is_font_link el) = true).
  { unfold is_font_link. destruct (String.eqb_spec (el_id el) "google-font-link");
      [contradiction | reflexivity]. }
  split; intros Hin.
  - assert (H : In el (others (loadGoogleFont fontName doc)))
      by (apply filter_In; auto).
    rewrite Ho in H. apply filter_In in H. tauto.
  - assert (H : In el (others doc)) by (apply filter_In; auto).
    rewrite <- Ho in H. apply filter_In in H. tauto.
Qed.

Lemma loadGoogleFont_leaves_the_rest_witness :
  let doc := [mkElement "viewport" "" "" None; font_link_element "Inter"] in
  others (loadGoogleFont "Press Start 2P" doc) = others doc
  /\ (In (mkElement "viewport" "" "" None) (loadGoogleFont "Press Start 2P" doc)
      <-> In (mkElement "viewport" "" "" None) doc).
Proof.
  apply loadGoogleFont_leaves_the_rest. discriminate.
Defined.

Lemma no_whitespace_append (a b : string) :
  no_whitespace (a ++ b)%string = no_whitespace a && no_whitespace b.
Proof.
  induction a as [|c rest IH]; simpl; [reflexivity|].
  rewrite IH. apply andb_assoc.
Qed.

Lemma replace_whitespace_clean (s : string) : no_whitespace (replace_whitespace s) = true.
Proof.
  induction s as [|c rest IH]; cbn [replace_whitespace no_whitespace]; [reflexivity|].
  rewrite IH, andb_true_r.
  destruct (is_whitespace c) eqn:E; [reflexivity | rewrite E; reflexivity].
Qed.

(** X13.  The address of the style sheet holds no white space, whatever the
    font name: every white-space character of the name is sent as "+",
    and the name is otherwise unchanged, character by character. *)
Theorem fontLink_has_no_whitespace (fontName : string) :
  no_whitespace (fontLink fontName) = true
  /\ String.length (replace_whitespace fontName) = String.length fontName
  /\ (no_whitespace fontName = true -> replace_whitespace fontName = fontName).
Proof.
  splits.
  - unfold fontLink. rewrite !no_whitespace_append, replace_whitespace_clean. reflexivity.
  - induction fontName as [|c rest IH]; simpl; [reflexivity | rewrite IH; reflexivity].
  - induction fontName as [|c rest IH]; simpl; [reflexivity|].
    destruct (is_whitespace c); simpl; [discriminate|].
    intros H. rewrite (IH H). reflexivity.
Qed.

(** ** The effect that follows [result] *)

Lemma nextFont_of_nonempty (result : option SuggestionObj) (f : string) :
  nextFont_of result = Some f -> f <> ""%string.
Proof.
  unfold nextFont_of. destruct result as [r|]; [|discriminate].
  destruct (truthy (trim (font_name (fields r)))) eqn:E; [|discriminate].
  intros H. inversion H; subst f. apply truthy_nonempty, E.
Qed.

(** With at most one font link, the one found is the only one. *)
Lemma links_of_in_sync (s : FontState) :
  in_sync s ->
  filter is_font_link (document s)
  = match currentFontRef s with
    | Some f => [font_link_element f]
    | None => []
    end.
Proof.
  intros (Hone & Href). unfold one_font_link in Hone.
  rewrite getElementById_filter in Href.
  destruct (filter is_font_link (document s)) as [|el [|el' rest]];
    cbn [length hd_error] in *; [| |lia].
  - destruct (currentFontRef s); [destruct Href; discriminate | reflexivity].
  - destruct (currentFontRef s); [destruct Href as (_ & H); inversion H; reflexivity
                                 | discriminate].
Qed.

Lemma font_effect_run (result : option SuggestionObj) (s : FontState) :
  in_sync s ->
  in_sync (font_effect result s)
  /\ others (document (font_effect result s)) = others (document s)
  /\ forall f, nextFont_of result = Some f -> currentFontRef (font_effect result s) = Some f.
Proof.
  intros Hs. unfold font_effect.
  destruct (nextFont_of result) as [n|] eqn:Hn; [|splits; [exact Hs | reflexivity | discriminate]].
  pose proof (nextFont_of_nonempty result n Hn) as Hne.
  assert (Hnew : (match currentFontRef s with
                  | Some current => (current =? n)%string
                  | None => false
                  end) = false ->
                 filter is_font_link (loadGoogleFont n (document s)) = [font_link_element n]).
  { intros Hc. rewrite (loadGoogleFont_links n (document s) Hne), (links_of_in_sync s Hs).
    destruct (currentFontRef s) as [c|]; [|reflexivity].
    cbn [font_link_element dataset_fontName]. rewrite Hc. reflexivity. }
  destruct (match currentFontRef s with
            | Some current => (current =? n)%string
            | None => false
            end) eqn:Hc.
  - splits; [exact Hs | reflexivity |].
    intros f Hf. inversion Hf; subst f.
    destruct (currentFontRef s) as [c|]; [|discriminate].
    apply String.eqb_eq in Hc. congruence.
  - specialize (Hnew eq_refl). splits.
    + split; cbn [document currentFontRef].
      * unfold one_font_link. rewrite Hnew. cbn. lia.
      * split; [exact Hne|]. rewrite getElementById_filter, Hnew. reflexivity.
    + apply loadGoogleFont_others.
    + intros f Hf. inversion Hf. reflexivity.
Qed.

(** X14.  The effect keeps the ref and the document in step: it leaves one
    font link at most, the link of the font the ref remembers; once it
    has run, that font is the trimmed font name of [result] when there is
    one; and running it again on the same [result] does nothing. *)
Theorem font_effect_keeps_in_step (result : option SuggestionObj) (s : FontState) :
  in_sync s ->
  in_sync (font_effect result s)
  /\ (forall f, nextFont_of result = Some f ->
        currentFontRef (font_effect result s) = Some f
        /\ getElementById "google-font-link" (document (font_effect result s))
           = Some (font_link_element f))
  /\ font_effect result (font_effect result s) = font_effect result s.
Proof.
  intros Hs. destruct (font_effect_run result s Hs) as (Hs' & _ & Href).
  splits.
  - exact Hs'.
  - intros f Hf. specialize (Href f Hf). split; [exact Href|].
    destruct Hs' as (_ & Hdoc). rewrite Href in Hdoc. apply Hdoc.
  - destruct (nextFont_of result) as [n|] eqn:Hn.
    + specialize (Href n eq_refl).
      generalize dependent (font_effect result s). intros s' _ Href.
      unfold font_effect. rewrite Hn, Href, String.eqb_refl. reflexivity.
    + unfold font_effect. rewrite Hn. reflexivity.
Qed.

Lemma font_effect_keeps_in_step_witness :
  let s := mkFontState (Some "Inter"%string)
             [mkElement "viewport" "" "" None; font_link_element "Inter"] in
  let result := Some (mkObj 1 (mkFontSuggestion " Press Start 2P " "Nostalgic.")) in
  in_sync (font_effect result s)
  /\ (forall f, nextFont_of result = Some f ->
        currentFontRef (font_effect result s) = Some f
        /\ getElementById "google-font-link" (document (font_effect result s))
           = Some (font_link_element f))
  /\ font_effect result (font_effect result s) = font_effect result s.
Proof.
  apply font_effect_keeps_in_step.
  split; [unfold one_font_link; vm_compute; lia|].
  split; [discriminate | reflexivity].
Defined.

(** ** The page as a whole: the component and its font loader *)

Lemma same_object_refl (a : option SuggestionObj) : same_object a a = true.
Proof. destruct a as [o|]; [apply Nat.eqb_refl | reflexivity]. Qed.

Lemma heap_tidy_initial : heap_tidy initial.
Proof. split; [apply heap_ok_initial | discriminate]. Qed.

(** A call leaves in [result] the object that was there, or another
    one with another identity: React's comparison by identity misses no
    change of [result]. *)
Lemma handleSubmit_keeps_heap_tidy
    (env : Env) (e : bool) (initialPrompt : option string) (w : World) :
  heap_tidy w ->
  let w' := final (handleSubmit env e initialPrompt w) in
  heap_tidy w'
  /\ (same_object (result w) (result w') = true -> result w' = result w).
Proof.
  intros (Hok & Hzero).
  pose proof (handleSubmit_keeps_heap_ok env e initialPrompt w Hok) as Hok'.
  destruct (handleSubmit_cases env e initialPrompt w) as (w' & fx & Hrun & Hcases).
  rewrite Hrun in *. cbn [final] in *.
  assert (Hres : result w' = result w
                 \/ (exists b, result w' = Some (parsed w b))
                 \/ result w' = Some MOCK_FONT_SUGGESTION).
  { destruct Hcases as [-> | [-> | (_ & _ & _ & Hreq)]]; [now left | now left |].
    destruct Hreq as [(b & _ & H & _) | [(x & _ & _ & H & _) | (x & _ & _ & H & _)]].
    - destruct (keep_if_same_cases (parsed w b) (result w)) as [E | (p & Hp & E)];
        rewrite E in H; [right; left; eauto | left; congruence].
    - destruct (keep_if_same_cases MOCK_FONT_SUGGESTION (result w)) as [E | (p & Hp & E)];
        rewrite E in H; [right; right; exact H | left; congruence].
    - now left. }
  destruct Hok as (Hpos & Hbelow).
  destruct Hres as [E | [(b & E) | E]]; rewrite E.
  - split; [|reflexivity]. split; [exact Hok'|]. rewrite E. exact Hzero.
  - split.
    + split; [exact Hok'|]. rewrite E. intros o Ho Hid. inversion Ho; subst o.
      cbn in Hid. lia.
    + destruct (result w) as [o|]; cbn; [|discriminate].
      intros Hsame. apply Nat.eqb_eq in Hsame. lia.
  - split.
    + split; [exact Hok'|]. rewrite E. intros o Ho _. congruence.
    + destruct (result w) as [o|]; cbn; [|discriminate].
      intros Hsame. apply Nat.eqb_eq in Hsame.
      rewrite (Hzero o eq_refl Hsame). reflexivity.
Qed.

(** What holds of every page: the identities are in order, the ref and
    the document agree, the effect has caught up with [result], and the
    rest of the document is as it was found. *)
Lemma page_invariant (doc : list Element) (p : Page) :
  getElementById "google-font-link" doc = None ->
  page_reachable doc p ->
  heap_tidy (app p) /\ in_sync (fonts p) /\ font_settled p
  /\ others (document (fonts p)) = others doc.
Proof.
  intros Hdoc Hp.
  assert (Hcommit : forall (p : Page) (w' : World),
             (heap_tidy (app p) /\ in_sync (fonts p) /\ font_settled p
              /\ others (document (fonts p)) = others doc) ->
             heap_tidy w' ->
             (same_object (result (app p)) (result w') = true ->
              result w' = result (app p)) ->
             heap_tidy (app (commit w' p)) /\ in_sync (fonts (commit w' p))
             /\ font_settled (commit w' p)
             /\ others (document (fonts (commit w' p))) = others doc).
  { clear p Hp. intros p w' (I1 & I2 & I3 & I4) Htidy Hsame.
    unfold commit, rerender, font_settled in *. cbn [app fonts].
    destruct (same_object (result (app p)) (result w')) eqn:E.
    - rewrite (Hsame eq_refl). auto.
    - destruct (font_effect_run (result w') (fonts p) I2) as (J1 & J2 & J3).
      splits; [exact Htidy | exact J1 | | congruence].
      destruct (nextFont_of (result w')) as [f|]; [apply J3; reflexivity | exact I]. }
  induction Hp as [ | v p _ IH | env e initialPrompt p _ IH].
  - unfold mounted. cbn. splits.
    + apply heap_tidy_initial.
    + split; [|exact Hdoc]. unfold one_font_link. cbn [document].
      rewrite getElementById_filter in Hdoc.
      destruct (filter is_font_link doc); [cbn; lia | discriminate].
    + exact I.
    + reflexivity.
  - apply Hcommit; [exact IH | exact (proj1 IH) | reflexivity].
  - destruct (handleSubmit_keeps_heap_tidy env e initialPrompt (app p) (proj1 IH))
      as (Ht & Hs).
    apply Hcommit; [exact IH | exact Ht | exact Hs].
Qed.

(** X15.  On every page the user can reach, the one font link in the document
    is the link of the font of the stored suggestion (its trimmed font
    name), and the rest of the document is as the component found it. *)
Theorem stored_font_is_the_one_loaded (doc : list Element) (p : Page) (f : string) :
  getElementById "google-font-link" doc = None ->
  page_reachable doc p ->
  nextFont_of (result (app p)) = Some f ->
  getElementById "google-font-link" (document (fonts p)) = Some (font_link_element f)
  /\ one_font_link (document (fonts p))
  /\ others (document (fonts p)) = others doc.
Proof.
  intros Hdoc Hp Hf.
  destruct (page_invariant doc p Hdoc Hp) as (_ & (Hone & Href) & Hset & Hrest).
  unfold font_settled in Hset. rewrite Hf in Hset. rewrite Hset in Href.
  splits; [apply Href | exact Hone | exact Hrest].
Qed.

Lemma stored_font_is_the_one_loaded_witness :
  let doc := [mkElement "viewport" "" "" None] in
  let p := submit_and_commit offline true (Some "Dracula")
             (submit_and_commit
                (always (suggestion_response " Inter " "Clean and neutral."))
                true (Some "Moby Dick") (mounted doc)) in
  getElementById "google-font-link" (document (fonts p))
  = Some (font_link_element "Press Start 2P")
  /\ one_font_link (document (fonts p))
  /\ others (document (fonts p)) = others doc.
Proof.
  apply stored_font_is_the_one_loaded.
  - reflexivity.
  - apply page_submitted, page_submitted, page_mounted.
  - vm_compute. reflexivity.
Defined.

(** ** The server *)

Section ServerFacts.
Variable J : Type.
Variable JSON_parse : string -> option J.
Variable view : J -> Body.

Lemma suggest_font_cases (prompt : option string) (ai : AiOutcome) :
  let r := suggest_font J JSON_parse prompt ai in
  ((prompt = None \/ prompt = Some ""%string)
   /\ reply_status (fst r) = 400%N /\ snd r = [])
  \/ (exists p, prompt = Some p /\ p <> ""%string
      /\ model_calls (snd r) = 1
      /\ ((exists text j,
              ai = AiAnswers (Some text) /\ JSON_parse (trim text) = Some j
              /\ fst r = mkReply 200 (PassedOn j))
          \/ (exists text,
                 ai = AiAnswers (Some text) /\ JSON_parse (trim text) = None
                 /\ fst r = mkReply 500
                              (ObjectOf [("error", "AI returned non-JSON data.");
                                         ("raw_response", trim text)]%string))
          \/ (exists err,
                 (ai = AiRejects err
                  \/ (ai = AiAnswers None
                      /\ err = ErrorObject
                                 "Cannot read properties of undefined (reading 'trim')"))
                 /\ fst r = mkReply 500
                              (ObjectOf (("error", "Failed to generate content from AI.")%string
                                         :: optional_member "details" (message_of err)))))).
Proof.
  unfold suggest_font. destruct prompt as [p|]; [|left; auto].
  destruct (String.eqb_spec p "") as [-> | Hne]; [left; auto|].
  right. exists p. pose proof (proj2 (truthy_nonempty p) Hne) as Ht. rewrite Ht.
  cbn [negb]. split; [reflexivity|]. split; [exact Hne|].
  destruct ai as [[text|] | err].
  - destruct (JSON_parse (trim text)) as [j|] eqn:Hj.
    + split; [reflexivity|]. left. exists text, j. auto.
    + split; [reflexivity|]. right; left. exists text. auto.
  - split; [reflexivity|]. right; right. eexists. split; [right; split; reflexivity|].
    reflexivity.
  - split; [reflexivity|]. right; right. exists err. split; [now left | reflexivity].
Qed.

Lemma member_details (value : option string) :
  member "details"
    (("error", "Failed to generate content from AI.")%string
     :: optional_member "details" value)
  = value.
Proof. destruct value; reflexivity. Qed.

(** What the client's attempt [i] meets at this server. *)
Lemma backend_fetch (ai : nat -> AiOutcome) (currentPrompt : string)
    (evs : AwaitSite -> list UIEvent) (i : nat) :
  currentPrompt <> ""%string ->
  (exists b, fetch_result (backend J JSON_parse view ai currentPrompt evs) i
             = Resolved (mkResponse 200 (JsonResolves b))
             /\ exists text j, ai i = AiAnswers (Some text)
                               /\ JSON_parse (trim text) = Some j /\ b = view j)
  \/ (fetch_result (backend J JSON_parse view ai currentPrompt evs) i
      = Resolved (mkResponse 500 (JsonResolves (mkBody "" "" None)))
      /\ exists text, ai i = AiAnswers (Some text) /\ JSON_parse (trim text) = None)
  \/ (exists err,
         fetch_result (backend J JSON_parse view ai currentPrompt evs) i
         = Resolved (mkResponse 500 (JsonResolves (mkBody "" "" (message_of err))))
         /\ (ai i = AiRejects err
             \/ (ai i = AiAnswers None
                 /\ err = ErrorObject
                            "Cannot read properties of undefined (reading 'trim')"))).
Proof.
  intros Hne. cbn [backend fetch_result].
  destruct (suggest_font_cases (Some currentPrompt) (ai i))
    as [([H | H] & _) | (p & Hp & _ & _ & Hcases)]; [discriminate | congruence |].
  destruct Hcases as [(text & j & Hai & Hj & Hr) | [(text & Hai & Hj & Hr)
                                                  | (err & Hai & Hr)]]; rewrite Hr.
  - left. exists (view j). split; [reflexivity|]. exists text, j. auto.
  - right; left. split; [reflexivity|]. exists text. auto.
  - right; right. exists err. split; [|exact Hai].
    unfold to_response. cbn [reply_status reply_json]. rewrite member_details. reflexivity.
Qed.

(** Three answers with status 500: the loop uses all its attempts and
    all its timers, and hands on the third answer. *)
Lemma three_server_errors (env : Env) (currentPrompt : string) (j0 j1 j2 : JsonResult) :
  fetch_result env 0 = Resolved (mkResponse 500 j0) ->
  fetch_result env 1 = Resolved (mkResponse 500 j1) ->
  fetch_result env 2 = Resolved (mkResponse 500 j2) ->
  retry_verdict env = Normal (Some (mkResponse 500 j2))
  /\ loop_schedule (fetch_result env) currentPrompt maxRetries 0
     = [Fetch API_URL currentPrompt; SetTimeout 500;
        Fetch API_URL currentPrompt; SetTimeout 1000;
        Fetch API_URL currentPrompt; SetTimeout 2000].
Proof.
  intros H0 H1 H2. unfold retry_verdict, maxRetries.
  cbn [loop_exit loop_schedule]. rewrite H0, H1, H2. split; reflexivity.
Qed.
End ServerFacts.

(** X16.  The server answers 200, 400 or 500 and nothing else: 400 exactly
    when the body has no [prompt] or an empty one, and then before
    anything is logged or the model is called; 200 exactly when the
    model's answer, trimmed, parses, and then with the parsed value as the
    body; the model is called once per request at most. *)
Theorem suggest_font_answers
    (J : Type) (JSON_parse : string -> option J)
    (prompt : option string) (ai : AiOutcome) :
  let r := suggest_font J JSON_parse prompt ai in
  (reply_status (fst r) = 200 \/ reply_status (fst r) = 400 \/ reply_status (fst r) = 500)%N
  /\ (reply_status (fst r) = 400%N <-> prompt = None \/ prompt = Some ""%string)
  /\ (reply_status (fst r) = 400%N -> snd r = [])
  /\ (reply_status (fst r) = 200%N
      <-> exists text j, ai = AiAnswers (Some text) /\ JSON_parse (trim text) = Some j
                         /\ reply_json (fst r) = PassedOn j
                         /\ exists p, prompt = Some p /\ p <> ""%string)
  /\ model_calls (snd r) <= 1.
Proof.
  destruct (suggest_font_cases J JSON_parse prompt ai)
    as [(Hp & Hs & Hfx) | (p & Hp & Hne & Hcalls & Hcases)].
  - cbv zeta. rewrite Hs, Hfx. splits; auto.
    + tauto.
    + split; [discriminate|]. intros (_ & _ & _ & _ & _ & p & Hp' & Hne).
      destruct Hp as [Hp | Hp]; congruence.
  - cbv zeta. rewrite Hcalls.
    assert (Hnot : ~ (prompt = None \/ prompt = Some ""%string))
      by (intros [H | H]; congruence).
    destruct Hcases as [(text & j & Hai & Hj & Hr) | [(text & Hai & Hj & Hr)
                                                    | (err & Hai & Hr)]];
      rewrite Hr; cbn [reply_status reply_json]; splits; auto;
      try (split; [discriminate | tauto]);
      try (intros; discriminate).
    + split; [|reflexivity]. intros _. exists text, j. eauto 10.
    + split; [discriminate|]. intros (text' & j' & Hai' & Hj' & _). congruence.
    + split; [discriminate|]. intros (text' & j' & Hai' & _).
      destruct Hai as [Hai | (Hai & _)]; congruence.
Qed.

(** X17.  Against this server a call that is let through never meets the
    400: each of its requests is answered 200 or 500, a 500 is always
    tried again, and so the call either stores a suggestion or has used
    all three attempts, 3500ms of back-off included, when it reports. *)
Theorem server_errors_are_always_retried
    (J : Type) (JSON_parse : string -> option J) (view : J -> Body)
    (ai : nat -> AiOutcome) (evs : AwaitSite -> list UIEvent)
    (e : bool) (initialPrompt : option string) (w : World) :
  passes_guards initialPrompt w ->
  let currentPrompt := currentPrompt_of initialPrompt (prompt w) in
  let env := backend J JSON_parse view ai currentPrompt evs in
  (forall i, exists r, fetch_result env i = Resolved r
                       /\ (status r = 200 \/ status r = 500)%N)
  /\ ((exists b, try_verdict env = Normal b)
      \/ exists tail,
           timeline (effects (handleSubmit env e initialPrompt w))
           = [Fetch API_URL currentPrompt; SetTimeout 500;
              Fetch API_URL currentPrompt; SetTimeout 1000;
              Fetch API_URL currentPrompt; SetTimeout 2000] ++ tail).
Proof.
  intros Hp cp env. pose proof Hp as (Hne & _). fold cp in Hne.
  assert (Hfetch : forall i,
             (exists b, fetch_result env i = Resolved (mkResponse 200 (JsonResolves b)))
             \/ (exists j, fetch_result env i = Resolved (mkResponse 500 j))).
  { intros i.
    destruct (backend_fetch J JSON_parse view ai cp evs i Hne)
      as [(b & H & _) | [(H & _) | (err & H & _)]]; eauto. }
  split.
  - intros i. destruct (Hfetch i) as [(b & H) | (j & H)]; rewrite H; eauto.
  - destruct (handleSubmit_timeline_passes env e initialPrompt w Hp) as (tail & _ & Ht).
    fold cp in Ht.
    destruct (Hfetch 0) as [(b0 & H0) | (j0 & H0)].
    { left. exists b0. unfold try_verdict, retry_verdict, maxRetries.
      cbn [loop_exit]. rewrite H0. reflexivity. }
    destruct (Hfetch 1) as [(b1 & H1) | (j1 & H1)].
    { left. exists b1. unfold try_verdict, retry_verdict, maxRetries.
      cbn [loop_exit]. rewrite H0, H1. reflexivity. }
    destruct (Hfetch 2) as [(b2 & H2) | (j2 & H2)].
    { left. exists b2. unfold try_verdict, retry_verdict, maxRetries.
      cbn [loop_exit]. rewrite H0, H1, H2. reflexivity. }
    right. exists tail. rewrite Ht.
    rewrite (proj2 (three_server_errors env cp j0 j1 j2 H0 H1 H2)). reflexivity.
Qed.

Lemma server_errors_are_always_retried_witness :
  let parse := fun text : string =>
                 if (text =? "INTER")%string
                 then Some (mkBody "Inter" "Clean and neutral." None) else None in
  let ai := fun i : nat =>
              match i with
              | 0 => AiRejects (ErrorObject "quota exceeded")
              | 1 => AiAnswers (Some "not json"%string)
              | _ => AiAnswers (Some " INTER "%string)
              end in
  let currentPrompt := currentPrompt_of (Some "Moby Dick"%string) (prompt initial) in
  let env := backend Body parse (fun b => b) ai currentPrompt nothing_else in
  (forall i, exists r, fetch_result env i = Resolved r
                       /\ (status r = 200 \/ status r = 500)%N)
  /\ ((exists b, try_verdict env = Normal b)
      \/ exists tail,
           timeline (effects (handleSubmit env true (Some "Moby Dick"%string) initial))
           = [Fetch API_URL currentPrompt; SetTimeout 500;
              Fetch API_URL currentPrompt; SetTimeout 1000;
              Fetch API_URL currentPrompt; SetTimeout 2000] ++ tail).
Proof.
  refine (server_errors_are_always_retried Body _ (fun b => b) _ nothing_else
            true (Some "Moby Dick"%string) initial _).
  unfold passes_guards. vm_compute. repeat split; discriminate.
Defined.

(** X18.  When the model fails on every attempt, its last error message is
    what the user reads: the server passes it on as [details], the client
    tries three times (three calls to the model), and then shows
    "Server Error: " followed by that message; the stored suggestion and
    Dedup Memory stay as they were. *)
Theorem model_error_reaches_the_user
    (J : Type) (JSON_parse : string -> option J) (view : J -> Body)
    (ai : nat -> AiOutcome) (evs : AwaitSite -> list UIEvent) (msg : nat -> string)
    (e : bool) (initialPrompt : option string) (w : World) :
  passes_guards initialPrompt w ->
  (forall i, i < maxRetries -> ai i = AiRejects (ErrorObject (msg i))) ->
  msg 2 <> ""%string ->
  looks_like_network_error (msg 2) = false ->
  let currentPrompt := currentPrompt_of initialPrompt (prompt w) in
  let env := backend J JSON_parse view ai currentPrompt evs in
  let w' := final (handleSubmit env e initialPrompt w) in
  timeline (effects (handleSubmit env e initialPrompt w))
  = [Fetch API_URL currentPrompt; SetTimeout 500;
     Fetch API_URL currentPrompt; SetTimeout 1000;
     Fetch API_URL currentPrompt; SetTimeout 2000]
  /\ (forall i, i < maxRetries ->
        model_calls (snd (suggest_font J JSON_parse (Some currentPrompt) (ai i))) = 1)
  /\ error w' = Some ("Server Error: " ++ msg 2 ++ ".")%string
  /\ shown w' = ErrorPanel ("Server Error: " ++ msg 2 ++ ".")%string
  /\ result w' = result w
  /\ lastPromptRef w' = lastPromptRef w.
Proof.
  intros Hp Hai Hmsg Hnet cp env. pose proof Hp as (Hne & _). fold cp in Hne.
  assert (Hfetch : forall i, i < maxRetries ->
             fetch_result env i
             = Resolved (mkResponse 500 (JsonResolves (mkBody "" "" (Some (msg i)))))).
  { intros i Hi.
    destruct (backend_fetch J JSON_parse view ai cp evs i Hne)
      as [(b & _ & text & j & H & _) | [(_ & text & H & _) | (err & Hf & [H | (H & _)])]];
      rewrite (Hai i Hi) in H; try discriminate.
    inversion H; subst err. exact Hf. }
  assert (H0 := Hfetch 0 ltac:(unfold maxRetries; lia)).
  assert (H1 := Hfetch 1 ltac:(unfold maxRetries; lia)).
  assert (H2 := Hfetch 2 ltac:(unfold maxRetries; lia)).
  destruct (three_server_errors env cp _ _ _ H0 H1 H2) as (Hloop & Hsched).
  assert (Hv : try_verdict env = Throw (ErrorObject (msg 2))).
  { unfold try_verdict. rewrite Hloop.
    change (ok (mkResponse 500 (JsonResolves (mkBody "" "" (Some (msg 2)))))) with false.
    cbv beta iota. unfold failure_text, errData_of. cbn [json_result details].
    rewrite (proj2 (truthy_nonempty (msg 2)) Hmsg). reflexivity. }
  destruct (request_reports env cp w (ErrorObject (msg 2)) Hv Hnet)
    as (w' & fx & Hr & Ht & R1 & _ & _ & R4 & _ & R6).
  cbv zeta. rewrite (handleSubmit_passes env e initialPrompt w w' _ fx Hp Hr).
  cbn [effects final]. rewrite timeline_default_prevented, Ht. splits.
  - exact Hsched.
  - intros i Hi.
    destruct (suggest_font_cases J JSON_parse (Some cp) (ai i))
      as [([H | H] & _) | (p & _ & _ & Hcalls & _)]; [discriminate | congruence | exact Hcalls].
  - exact R6.
  - unfold shown, ResultDisplay. rewrite R6, server_error_truthy. reflexivity.
  - exact R1.
  - exact R4.
Qed.

Lemma model_error_reaches_the_user_witness :
  let parse := fun _ : string => @None Body in
  let ai := fun _ : nat => AiRejects (ErrorObject "quota exceeded") in
  let currentPrompt := currentPrompt_of (Some "Moby Dick"%string) (prompt initial) in
  let env := backend Body parse (fun b => b) ai currentPrompt nothing_else in
  let w' := final (handleSubmit env true (Some "Moby Dick"%string) initial) in
  timeline (effects (handleSubmit env true (Some "Moby Dick"%string) initial))
  = [Fetch API_URL currentPrompt; SetTimeout 500;
     Fetch API_URL currentPrompt; SetTimeout 1000;
     Fetch API_URL currentPrompt; SetTimeout 2000]
  /\ (forall i, i < maxRetries ->
        model_calls (snd (suggest_font Body parse (Some currentPrompt) (ai i))) = 1)
  /\ error w' = Some ("Server Error: " ++ "quota exceeded" ++ ".")%string
  /\ shown w' = ErrorPanel ("Server Error: " ++ "quota exceeded" ++ ".")%string
  /\ result w' = result initial
  /\ lastPromptRef w' = lastPromptRef initial.
Proof.
  refine (model_error_reaches_the_user Body _ (fun b => b) _ nothing_else
            (fun _ => "quota exceeded"%string) true (Some "Moby Dick"%string) initial
            _ _ _ _).
  - unfold passes_guards. vm_compute. repeat split; discriminate.
  - reflexivity.
  - discriminate.
  - vm_compute. reflexivity.
Defined.



(** ** A new title always goes out *)

(** X20.  Between two events, a submission with a title that is not blank
    and not the recorded one is let through: its first act on the network
    is the request for that title. *)
Theorem new_title_is_always_sent
    (env : Env) (e : bool) (initialPrompt : option string) (w : World) :
  reachable w ->
  currentPrompt_of initialPrompt (prompt w) <> ""%string ->
  lastPromptRef w <> Some (currentPrompt_of initialPrompt (prompt w)) ->
  exists rest,
    timeline (effects (handleSubmit env e initialPrompt w))
    = Fetch API_URL (currentPrompt_of initialPrompt (prompt w)) :: rest.
Proof.
  intros Hr Hne Hl. destruct (reachable_invariant w Hr) as (Hidle & _).
  assert (Hp : passes_guards initialPrompt w) by (repeat split; assumption).
  destruct (handleSubmit_timeline_passes env e initialPrompt w Hp) as (tail & _ & Ht).
  rewrite Ht. unfold maxRetries. cbn [loop_schedule app]. eexists. reflexivity.
Qed.

Lemma new_title_is_always_sent_witness :
  let w := final (handleSubmit offline true (Some "Moby Dick"%string) initial) in
  exists rest,
    timeline (effects (handleSubmit offline true (Some "Dracula"%string) w))
    = Fetch API_URL (currentPrompt_of (Some "Dracula"%string) (prompt w)) :: rest.
Proof.
  refine (new_title_is_always_sent offline true (Some "Dracula"%string) _ _ _ _).
  - apply reach_submitted, reach_initial.
  - vm_compute. discriminate.
  - vm_compute. discriminate.
Defined.
